(** * Impact Project Room: the AI field-extraction pipeline of [app.py]

    A shallow embedding of the pipeline helpers of [src/app.py]:
    [_match_sdgs], [extract_text_from_file], [_parse_json_from_string] and
    [summarize_project_with_gpt], together with the parts of the Python
    standard library they call ([json.loads], [json.dump],
    [difflib.get_close_matches], [str] methods, [dict.setdefault]), which
    follow the sources of CPython 3.11 ([Lib/json], [Lib/difflib.py],
    [Lib/heapq.py]). The document readers ([fitz], [docx], [pptx],
    [pandas]) and the OpenAI client are parameters.

    Python values are modelled as follows.
    - [str] is a list of Unicode code points ([pystr]).
    - [int] is [Z]; a conversion between [int] and [str] raises above
      the interpreter's limit of 4300 digits.
    - a [float] is kept as a decimal literal, the one it was read from or
      the one that [float.__repr__] gives for it; its binary rounding is
      not modelled.
    - [dict] is an association list in insertion order.
    - a call that may raise returns a [result]; [try]/[except] is a match on
      it. *)

From Stdlib Require Import String Ascii List ZArith NArith Bool Lia QArith.
From Stdlib Require DecimalZ DecimalFacts DecimalPos.
Import ListNotations.
Close Scope Q_scope.

Set Implicit Arguments.
Set Warnings "-register-all".

(* ================================================================== *)
(** * Python values, exceptions and built-ins *)
(* ================================================================== *)

Module Py.

(** A code point, [0 <= c < 0x110000]. *)
Abbreviation char := N (only parsing).
Definition pystr := list char.

Definition ord (a : ascii) : char := N_of_ascii a.

(** A literal of the source, as a [str]. The literals used are ASCII. *)
Fixpoint str (s : string) : pystr :=
  match s with
  | EmptyString => []
  | String a r => ord a :: str r
  end.

(** The one-character [str] of a line feed, and of a double quote. *)
Definition LF : pystr := [10%N].
Definition DQ : pystr := [34%N].

(** ** Exceptions *)

(** [BaseOnly] stands for the classes that derive from [BaseException]
    but not from [Exception] ([KeyboardInterrupt], [SystemExit],
    [GeneratorExit]). *)
Inductive exn_class :=
| JSONDecodeError
| StopIteration
| RecursionError
| AttributeError
| IndexError
| OtherException (name : string)
| BaseOnly (name : string).

Record exn := mk_exn { exn_cls : exn_class; exn_msg : pystr }.

(** [isinstance(e, Exception)]: what [except Exception] catches. *)
Definition is_Exception (e : exn) : bool :=
  match exn_cls e with
  | BaseOnly _ => false
  | _ => true
  end.

Inductive result (A : Type) :=
| Ok (a : A)
| Raise (e : exn).
Arguments Ok {A} a.
Arguments Raise {A} e.

Definition bind {A B} (m : result A) (k : A -> result B) : result B :=
  match m with
  | Ok a => k a
  | Raise e => Raise e
  end.

(** ** Values *)

Inductive pyfloat :=
| FNaN
| FPosInf
| FNegInf
| FDecimal (lit : pystr).

Inductive pyval :=
| PNone
| PBool (b : bool)
| PInt (z : Z)
| PFloat (f : pyfloat)
| PStr (s : pystr)
| PList (l : list pyval)
| PDict (d : list (pystr * pyval)).

(** [type(v).__name__]. *)
Definition type_name (v : pyval) : pystr :=
  match v with
  | PNone => str "NoneType"
  | PBool _ => str "bool"
  | PInt _ => str "int"
  | PFloat _ => str "float"
  | PStr _ => str "str"
  | PList _ => str "list"
  | PDict _ => str "dict"
  end.

(** ** [str] and sequence operations *)

Fixpoint str_eqb (a b : pystr) : bool :=
  match a, b with
  | [], [] => true
  | x :: a', y :: b' => N.eqb x y && str_eqb a' b'
  | _, _ => false
  end.

(** [a < b] on [str]: lexicographic on code points. *)
Fixpoint str_ltb (a b : pystr) : bool :=
  match a, b with
  | _, [] => false
  | [], _ :: _ => true
  | x :: a', y :: b' => N.ltb x y || (N.eqb x y && str_ltb a' b')
  end.

(** [c in s] for a one-character [c]. *)
Definition contains (c : char) (s : pystr) : bool := existsb (N.eqb c) s.

(** [x in l] for a list of [str]. *)
Definition mem (x : pystr) (l : list pystr) : bool := existsb (str_eqb x) l.

(** [s.find(c)]: the lowest index of [c], or [-1]. *)
Fixpoint find (c : char) (s : pystr) : Z :=
  match s with
  | [] => -1
  | x :: r =>
      if N.eqb x c then 0
      else let i := find c r in if (i <? 0)%Z then -1 else (i + 1)%Z
  end.

(** [s.rfind(c)]: the highest index of [c], or [-1]. *)
Fixpoint rfind (c : char) (s : pystr) : Z :=
  match s with
  | [] => -1
  | x :: r =>
      let i := rfind c r in
      if (0 <=? i)%Z then (i + 1)%Z
      else if N.eqb x c then 0 else -1
  end.

(** A slice bound, as [PySlice_AdjustIndices] clips it. *)
Definition adjust_index (len i : Z) : Z :=
  if (i <? 0)%Z then Z.max 0 (len + i) else Z.min i len.

(** [l[i:j]]. *)
Definition slice {A} (l : list A) (i j : Z) : list A :=
  let n := Z.of_nat (length l) in
  let lo := adjust_index n i in
  let hi := adjust_index n j in
  firstn (Z.to_nat (hi - lo)) (skipn (Z.to_nat lo) l).

(** [c.isspace()]. *)
Definition isspace (c : char) : bool :=
  ((9 <=? c) && (c <=? 13) || (28 <=? c) && (c <=? 32)
   || (c =? 133) || (c =? 160) || (c =? 5760)
   || (8192 <=? c) && (c <=? 8202)
   || (c =? 8232) || (c =? 8233) || (c =? 8239) || (c =? 8287)
   || (c =? 12288))%N.

Fixpoint lstrip (s : pystr) : pystr :=
  match s with
  | c :: r => if isspace c then lstrip r else s
  | [] => []
  end.

Definition rstrip (s : pystr) : pystr := rev (lstrip (rev s)).

(** [s.strip()]. *)
Definition strip (s : pystr) : pystr := rstrip (lstrip s).

(** [sep.join(l)]. *)
Fixpoint join (sep : pystr) (l : list pystr) : pystr :=
  match l with
  | [] => []
  | [x] => x
  | x :: r => x ++ sep ++ join sep r
  end.

(** ** [dict] *)

Definition dict := list (pystr * pyval).

(** [d.get(k)]. *)
Fixpoint dict_get (d : dict) (k : pystr) : option pyval :=
  match d with
  | [] => None
  | (k', v) :: r => if str_eqb k' k then Some v else dict_get r k
  end.

(** [d[k] = v]: an existing key keeps its place. *)
Fixpoint dict_set (d : dict) (k : pystr) (v : pyval) : dict :=
  match d with
  | [] => [(k, v)]
  | (k', v') :: r =>
      if str_eqb k' k then (k', v) :: r else (k', v') :: dict_set r k v
  end.

(** [d.setdefault(k, v)], for its effect on [d]. *)
Definition setdefault (d : dict) (k : pystr) (v : pyval) : dict :=
  match dict_get d k with
  | Some _ => d
  | None => d ++ [(k, v)]
  end.

(** [dict(pairs)]. *)
Definition dict_of_pairs (pairs : list (pystr * pyval)) : dict :=
  fold_left (fun d kv => dict_set d (fst kv) (snd kv)) pairs [].

Definition keys (d : dict) : list pystr := map fst d.

End Py.

Import Py.

Declare Scope py_scope.
Delimit Scope py_scope with py.
Notation "x <- m ;; k" := (bind m (fun x => k))
  (at level 61, m at next level, right associativity) : py_scope.
Notation "' p <- m ;; k" := (bind m (fun x => match x with p => k end))
  (at level 61, p pattern, m at next level, right associativity) : py_scope.
Open Scope py_scope.

(* ================================================================== *)
(** * The [json] module *)
(* ================================================================== *)

(** The decoder follows CPython's [json.decoder] and [json.scanner] as the
    [_json] accelerator runs them (ASCII digits, strict hexadecimal
    escapes). A position [end] in the document [s] is represented by the
    suffix [s[end:]]; error messages and positions are not kept, every
    decoding error is a [JSONDecodeError]. *)

Module Json.

Local Open Scope N_scope.

Definition decode_error : exn := mk_exn JSONDecodeError [].
Definition stop_iteration : exn := mk_exn StopIteration [].
Definition recursion_error : exn := mk_exn RecursionError [].
Definition value_error : exn := mk_exn (OtherException "ValueError") [].

(** [sys.get_int_max_str_digits()]: the app leaves the limit of the
    interpreter on the digits of a conversion between [int] and [str] at
    its default. *)
Definition int_max_str_digits : N := 4300.

(** Whether [n] digits are more than the limit allows. *)
Definition too_many_digits (n : nat) : bool :=
  int_max_str_digits <? N.of_nat n.

Definition quote : char := 34.
Definition backslash : char := 92.

(** [WHITESPACE_STR = ' \t\n\r']. *)
Definition is_ws (c : char) : bool :=
  (c =? 32) || (c =? 9) || (c =? 10) || (c =? 13).

(** [s[_w(s, end).end():]]: [s] without its leading [WHITESPACE]. *)
Fixpoint _w (s : pystr) : pystr :=
  match s with
  | c :: r => if is_ws c then _w r else s
  | [] => []
  end.

(** If [s] starts with [p], what follows [p]. *)
Fixpoint after_prefix (p s : pystr) : option pystr :=
  match p, s with
  | [], _ => Some s
  | x :: p', y :: s' => if x =? y then after_prefix p' s' else None
  | _ :: _, [] => None
  end.

(** ** Strings *)

Definition hex_val (c : char) : option N :=
  if (48 <=? c) && (c <=? 57) then Some (c - 48)
  else if (97 <=? c) && (c <=? 102) then Some (c - 87)
  else if (65 <=? c) && (c <=? 70) then Some (c - 55)
  else None.

(** [_decode_uXXXX] on the four characters after [\u]. *)
Definition _decode_uXXXX (h1 h2 h3 h4 : char) : option N :=
  match hex_val h1, hex_val h2, hex_val h3, hex_val h4 with
  | Some a, Some b, Some c, Some d => Some (((a * 16 + b) * 16 + c) * 16 + d)
  | _, _, _, _ => None
  end.

(** The table [BACKSLASH]. *)
Definition BACKSLASH (esc : char) : option char :=
  if esc =? quote then Some quote
  else if esc =? backslash then Some backslash
  else if esc =? ord "/" then Some (ord "/")
  else if esc =? ord "b" then Some 8
  else if esc =? ord "f" then Some 12
  else if esc =? ord "n" then Some 10
  else if esc =? ord "r" then Some 13
  else if esc =? ord "t" then Some 9
  else None.

Definition is_high_surrogate (u : N) : bool := (55296 <=? u) && (u <=? 56319).
Definition is_low_surrogate (u : N) : bool := (56320 <=? u) && (u <=? 57343).

(** [0x10000 + (((uni - 0xd800) << 10) | (uni2 - 0xdc00))]. *)
Definition join_surrogates (uni uni2 : N) : N :=
  65536 + N.lor (N.shiftl (uni - 55296) 10) (uni2 - 56320).

Definition push (c : char) (m : result (pystr * pystr)) : result (pystr * pystr) :=
  '(chunks, rest) <- m ;; Ok (c :: chunks, rest).

(** [py_scanstring(s, end, strict=True)], [s] starting after the opening
    quote: the decoded string and what follows the closing quote. *)
Fixpoint scanstring (s : pystr) : result (pystr * pystr) :=
  match s with
  | [] => Raise decode_error
  | c :: rest =>
    if c =? quote then Ok ([], rest)
    else if c =? backslash then
      match rest with
      | [] => Raise decode_error
      | esc :: rest1 =>
        if esc =? ord "u" then
          match rest1 with
          | h1 :: h2 :: h3 :: h4 :: rest2 =>
            match _decode_uXXXX h1 h2 h3 h4 with
            | None => Raise decode_error
            | Some uni =>
              let single := push uni (scanstring rest2) in
              if is_high_surrogate uni then
                match rest2 with
                | b1 :: u1 :: rest3 =>
                  if (b1 =? backslash) && (u1 =? ord "u") then
                    match rest3 with
                    | g1 :: g2 :: g3 :: g4 :: rest4 =>
                      match _decode_uXXXX g1 g2 g3 g4 with
                      | None => Raise decode_error
                      | Some uni2 =>
                        if is_low_surrogate uni2
                        then push (join_surrogates uni uni2) (scanstring rest4)
                        else single
                      end
                    | _ => Raise decode_error
                    end
                  else single
                | _ => single
                end
              else single
            end
          | _ => Raise decode_error
          end
        else
          match BACKSLASH esc with
          | Some ch => push ch (scanstring rest1)
          | None => Raise decode_error
          end
      end
    else if c <? 32 then Raise decode_error
    else push c (scanstring rest)
  end.

(** ** Numbers *)

Definition is_digit (c : char) : bool := (48 <=? c) && (c <=? 57).

(** The longest run of digits at the start of [s], and the rest. *)
Fixpoint span_digits (s : pystr) : pystr * pystr :=
  match s with
  | c :: r =>
      if is_digit c then let (d, t) := span_digits r in (c :: d, t)
      else ([], s)
  | [] => ([], [])
  end.

(** The first group of [NUMBER_RE]: an optional minus sign, then a
    zero or a digit from 1 to 9 followed by digits. *)
Definition match_integer (s : pystr) : option (pystr * pystr) :=
  let (sign, s1) :=
    match s with
    | c :: r => if c =? ord "-" then ([c], r) else ([], s)
    | [] => ([], s)
    end in
  match s1 with
  | c :: r =>
      if c =? ord "0" then Some (sign ++ [c], r)
      else if is_digit c then
        let (d, t) := span_digits r in Some (sign ++ c :: d, t)
      else None
  | [] => None
  end.

(** The second group of [NUMBER_RE], optional: a point and one or more
    digits. *)
Definition match_frac (s : pystr) : pystr * pystr :=
  match s with
  | c :: r =>
      if c =? ord "." then
        match span_digits r with
        | ([], _) => ([], s)
        | (d, t) => (c :: d, t)
        end
      else ([], s)
  | [] => ([], s)
  end.

(** The third group of [NUMBER_RE], optional: [e] or [E], an optional
    sign, one or more digits. *)
Definition match_exp (s : pystr) : pystr * pystr :=
  match s with
  | c :: r =>
      if (c =? ord "e") || (c =? ord "E") then
        let (sg, r1) :=
          match r with
          | c1 :: r' =>
              if (c1 =? ord "-") || (c1 =? ord "+") then ([c1], r') else ([], r)
          | [] => ([], r)
          end in
        match span_digits r1 with
        | ([], _) => ([], s)
        | (d, t) => (c :: sg ++ d, t)
        end
      else ([], s)
  | [] => ([], s)
  end.

Definition digit_of_char (c : char) : Decimal.uint -> Decimal.uint :=
  match c - 48 with
  | 0 => Decimal.D0 | 1 => Decimal.D1 | 2 => Decimal.D2 | 3 => Decimal.D3
  | 4 => Decimal.D4 | 5 => Decimal.D5 | 6 => Decimal.D6 | 7 => Decimal.D7
  | 8 => Decimal.D8 | _ => Decimal.D9
  end.

Fixpoint uint_of_digits (s : pystr) : Decimal.uint :=
  match s with
  | [] => Decimal.Nil
  | c :: r => digit_of_char c (uint_of_digits r)
  end.

(** The integer that a literal matched by [match_integer] denotes. *)
Definition int_of_literal (lit : pystr) : Z :=
  match lit with
  | c :: r =>
      if c =? ord "-" then Z.of_int (Decimal.Neg (uint_of_digits r))
      else Z.of_int (Decimal.Pos (uint_of_digits lit))
  | [] => 0%Z
  end.

(** The digits of such a literal, without its sign. *)
Definition literal_digits (lit : pystr) : pystr :=
  match lit with
  | c :: r => if c =? ord "-" then r else lit
  | [] => []
  end.

(** [int(lit)] for [lit] matched by [match_integer]: [ValueError] for
    more digits than [sys.get_int_max_str_digits()]. *)
Definition parse_int (lit : pystr) : result Z :=
  if too_many_digits (length (literal_digits lit)) then Raise value_error
  else Ok (int_of_literal lit).

(** [NUMBER_RE.match] and the conversion of its groups: the value, or
    the exception of the conversion, and what follows the match. *)
Definition match_number (s : pystr) : option (result pyval * pystr) :=
  match match_integer s with
  | None => None
  | Some (integer, s1) =>
      let (frac, s2) := match_frac s1 in
      let (exp, s3) := match_exp s2 in
      match frac, exp with
      | [], [] => Some (z <- parse_int integer ;; Ok (PInt z), s3)
      | _, _ => Some (Ok (PFloat (FDecimal (integer ++ frac ++ exp))), s3)
      end
  end.

(** ** Objects and arrays *)

Section Containers.

(** [scan_once], with what is left of the recursion limit. *)
Variable scan_once : pystr -> result (pyval * pystr).

(** [scan_once] as the containers call it: [StopIteration] becomes
    "Expecting value". *)
Definition scan_value (s : pystr) : result (pyval * pystr) :=
  match scan_once s with
  | Ok r => Ok r
  | Raise e =>
      match exn_cls e with
      | StopIteration => Raise decode_error
      | _ => Raise e
      end
  end.

(** The [while True] loop of [JSONObject], entered after the opening
    quote of a key. Every turn consumes a character, so [fuel] above
    the length of [s] is never used up (lemma [object_loop_fuel]). *)
Fixpoint object_loop (fuel : nat) (s : pystr) (pairs : list (pystr * pyval))
  : result (pyval * pystr) :=
  match fuel with
  | O => Raise decode_error
  | S fuel' =>
    '(key, s1) <- scanstring s ;;
    match _w s1 with
    | c :: s2 =>
      if c =? ord ":" then
        '(value, s3) <- scan_value (_w s2) ;;
        let pairs' := pairs ++ [(key, value)] in
        match _w s3 with
        | c' :: s4 =>
          if c' =? ord "}" then Ok (PDict (dict_of_pairs pairs'), s4)
          else if c' =? ord "," then
            match _w s4 with
            | q :: s5 =>
                if q =? quote then object_loop fuel' s5 pairs'
                else Raise decode_error
            | [] => Raise decode_error
            end
          else Raise decode_error
        | [] => Raise decode_error
        end
      else Raise decode_error
    | [] => Raise decode_error
    end
  end.

(** [JSONObject((s, end), ...)], [s] starting after the brace. *)
Definition JSONObject (s : pystr) : result (pyval * pystr) :=
  match _w s with
  | c :: r =>
      if c =? ord "}" then Ok (PDict [], r)
      else if c =? quote then object_loop (S (length r)) r []
      else Raise decode_error
  | [] => Raise decode_error
  end.

(** The [while True] loop of [JSONArray], entered at a value. *)
Fixpoint array_loop (fuel : nat) (s : pystr) (values : list pyval)
  : result (pyval * pystr) :=
  match fuel with
  | O => Raise decode_error
  | S fuel' =>
    '(value, s1) <- scan_value s ;;
    let values' := values ++ [value] in
    match _w s1 with
    | c :: s2 =>
        if c =? ord "]" then Ok (PList values', s2)
        else if c =? ord "," then array_loop fuel' (_w s2) values'
        else Raise decode_error
    | [] => Raise decode_error
    end
  end.

(** [JSONArray((s, end), scan_once)], [s] starting after the bracket. *)
Definition JSONArray (s : pystr) : result (pyval * pystr) :=
  match _w s with
  | c :: r =>
      if c =? ord "]" then Ok (PList [], r)
      else array_loop (S (length (c :: r))) (c :: r) []
  | [] => Raise decode_error
  end.

End Containers.

(** [_scan_once(string, idx)]. [depth] is what is left of the
    interpreter's recursion limit: entering an object or an array takes
    one level, and [RecursionError] is raised when none is left. *)
Fixpoint scan_once (depth : nat) (s : pystr) {struct depth}
  : result (pyval * pystr) :=
  match s with
  | [] => Raise stop_iteration
  | c :: rest =>
    if c =? quote then
      '(v, r) <- scanstring rest ;; Ok (PStr v, r)
    else if c =? ord "{" then
      match depth with
      | O => Raise recursion_error
      | S d => JSONObject (scan_once d) rest
      end
    else if c =? ord "[" then
      match depth with
      | O => Raise recursion_error
      | S d => JSONArray (scan_once d) rest
      end
    else
      match after_prefix (str "null") s with
      | Some r => Ok (PNone, r)
      | None =>
      match after_prefix (str "true") s with
      | Some r => Ok (PBool true, r)
      | None =>
      match after_prefix (str "false") s with
      | Some r => Ok (PBool false, r)
      | None =>
      match match_number s with
      | Some (value, r) => v <- value ;; Ok (v, r)
      | None =>
      match after_prefix (str "NaN") s with
      | Some r => Ok (PFloat FNaN, r)
      | None =>
      match after_prefix (str "Infinity") s with
      | Some r => Ok (PFloat FPosInf, r)
      | None =>
      match after_prefix (str "-Infinity") s with
      | Some r => Ok (PFloat FNegInf, r)
      | None => Raise stop_iteration
      end end end end end end end
  end.

(** [JSONDecoder.decode(s)]. *)
Definition decode (depth : nat) (s : pystr) : result pyval :=
  '(obj, rest) <- scan_value (scan_once depth) (_w s) ;;
  match _w rest with
  | [] => Ok obj
  | _ :: _ => Raise decode_error
  end.

(** [json.loads(s)] for a [str]. *)
Definition loads (depth : nat) (s : pystr) : result pyval :=
  match s with
  | 65279 :: _ => Raise decode_error
  | _ => decode depth s
  end.

End Json.

(** ** The encoder *)

(** [json.dump(obj, fp, ensure_ascii=False, indent=2)], the call with which
    [_save_submission] and [_update_submission] write a summary, for the
    text it writes. Keys are [str], so no key is converted or refused. *)

Module JsonEncoder.

Local Open Scope N_scope.

Definition hex_digit (n : N) : char :=
  if n <? 10 then 48 + n else 87 + n.

(** [ESCAPE_DCT[c]] for a character matched by [ESCAPE], [None] for any
    other character. *)
Definition escape (c : char) : option pystr :=
  if c =? Json.backslash then Some [Json.backslash; Json.backslash]
  else if c =? Json.quote then Some [Json.backslash; Json.quote]
  else if c =? 8 then Some [Json.backslash; ord "b"]
  else if c =? 12 then Some [Json.backslash; ord "f"]
  else if c =? 10 then Some [Json.backslash; ord "n"]
  else if c =? 13 then Some [Json.backslash; ord "r"]
  else if c =? 9 then Some [Json.backslash; ord "t"]
  else if c <? 32 then
    Some [Json.backslash; ord "u"; ord "0"; ord "0";
          hex_digit (c / 16); hex_digit (c mod 16)]
  else None.

Fixpoint escape_all (s : pystr) : pystr :=
  match s with
  | [] => []
  | c :: r =>
      match escape c with
      | Some e => e ++ escape_all r
      | None => c :: escape_all r
      end
  end.

(** [py_encode_basestring(s)]. *)
Definition encode_basestring (s : pystr) : pystr :=
  Json.quote :: escape_all s ++ [Json.quote].

Definition char_of_digit (d : N) : char := 48 + d.

Fixpoint digits_of_uint (u : Decimal.uint) : pystr :=
  match u with
  | Decimal.Nil => []
  | Decimal.D0 r => char_of_digit 0 :: digits_of_uint r
  | Decimal.D1 r => char_of_digit 1 :: digits_of_uint r
  | Decimal.D2 r => char_of_digit 2 :: digits_of_uint r
  | Decimal.D3 r => char_of_digit 3 :: digits_of_uint r
  | Decimal.D4 r => char_of_digit 4 :: digits_of_uint r
  | Decimal.D5 r => char_of_digit 5 :: digits_of_uint r
  | Decimal.D6 r => char_of_digit 6 :: digits_of_uint r
  | Decimal.D7 r => char_of_digit 7 :: digits_of_uint r
  | Decimal.D8 r => char_of_digit 8 :: digits_of_uint r
  | Decimal.D9 r => char_of_digit 9 :: digits_of_uint r
  end.

(** The decimal numeral of [z]: a minus sign for a negative [z], then
    its digits. *)
Definition digits_of_int (z : Z) : pystr :=
  match Z.to_int z with
  | Decimal.Pos u => digits_of_uint u
  | Decimal.Neg u => ord "-" :: digits_of_uint u
  end.

(** [int.__repr__(z)]: that numeral, or [ValueError] where [z] has more
    digits than [sys.get_int_max_str_digits()]. *)
Definition int_repr (z : Z) : result pystr :=
  if Json.too_many_digits (length (digits_of_int (Z.abs z)))
  then Raise Json.value_error
  else Ok (digits_of_int z).

Section Chunks.

Variables (A : Type) (encode : A -> result pystr).

(** The chunks of the items of a list or of a dict, up to the first that
    raises. *)
Fixpoint chunks (l : list A) : result (list pystr) :=
  match l with
  | [] => Ok []
  | x :: r => c <- encode x ;; cs <- chunks r ;; Ok (c :: cs)
  end.

End Chunks.

Section Encode.

(** [float.__repr__] of the float a decimal literal denotes. *)
Variable float_repr : pystr -> pystr.

(** [floatstr], with the default [allow_nan=True]. *)
Definition floatstr (f : pyfloat) : pystr :=
  match f with
  | FNaN => str "NaN"
  | FPosInf => str "Infinity"
  | FNegInf => str "-Infinity"
  | FDecimal lit => float_repr lit
  end.

(** ['\n' + _indent * level], [_indent] being two blanks. *)
Definition newline_indent (level : nat) : pystr :=
  10 :: repeat 32 (2 * level).

(** The text [_iterencode(o, level)] yields, chunk after chunk, or the
    exception that ends it. *)
Fixpoint iterencode (level : nat) (o : pyval) : result pystr :=
  match o with
  | PStr s => Ok (encode_basestring s)
  | PNone => Ok (str "null")
  | PBool true => Ok (str "true")
  | PBool false => Ok (str "false")
  | PInt z => int_repr z
  | PFloat f => Ok (floatstr f)
  | PList [] => Ok (str "[]")
  | PList l =>
      items <- chunks (iterencode (S level)) l ;;
      Ok (ord "[" :: newline_indent (S level)
          ++ join (ord "," :: newline_indent (S level)) items
          ++ newline_indent level ++ [ord "]"])
  | PDict [] => Ok (str "{}")
  | PDict d =>
      entries <- chunks (fun kv =>
                           value <- iterencode (S level) (snd kv) ;;
                           Ok (encode_basestring (fst kv) ++ str ": " ++ value))
                        d ;;
      Ok (ord "{" :: newline_indent (S level)
          ++ join (ord "," :: newline_indent (S level)) entries
          ++ newline_indent level ++ [ord "}"])
  end.

Definition dumps_indent2 (o : pyval) : result pystr := iterencode 0 o.

End Encode.

End JsonEncoder.

(* ================================================================== *)
(** * The [difflib] module *)
(* ================================================================== *)

(** [SequenceMatcher(isjunk=None, autojunk=True)] as
    [get_close_matches] drives it: [b] is the word, [a] a possibility.

    A ratio [2.0 * matches / length] is kept as the exact fraction. The
    binary64 quotient is the correctly rounded fraction, and two such
    fractions, or one of them and the cutoff, compare in the same way
    before and after rounding as long as the sequences are shorter than
    2^25 elements. *)

Module Difflib.

Definition Match := (nat * nat * nat)%type.

Section SequenceMatcher.

Variables a b : pystr.

(** *** [__chain_b] *)

Fixpoint indices_from (j : nat) (l : pystr) (x : char) : list nat :=
  match l with
  | [] => []
  | y :: r =>
      if N.eqb y x then j :: indices_from (S j) r x
      else indices_from (S j) r x
  end.

(** [elt in self.bpopular]: with 200 elements or more in [b], the
    elements that occur more than [n // 100 + 1] times. *)
Definition bpopular (x : char) : bool :=
  (200 <=? length b) && (length b / 100 + 1 <? length (indices_from 0 b x)).

(** [b2j.get(x, nothing)]; no element is junk, [isjunk] being [None]. *)
Definition b2j_get (x : char) : list nat :=
  if bpopular x then [] else indices_from 0 b x.

(** *** [find_longest_match] *)

(** [j2len.get(j, 0)]. *)
Fixpoint j2len_get (j2len : list (nat * nat)) (j : nat) : nat :=
  match j2len with
  | [] => 0
  | (j', k) :: r => if j' =? j then k else j2len_get r j
  end.

(** [for j in b2j.get(a[i], nothing)], with its [continue] and
    [break]; the key [j - 1] of [j2len] is absent when [j] is 0. *)
Fixpoint scan_js (js : list nat) (i blo bhi : nat)
         (j2len newj2len : list (nat * nat)) (best : Match)
  : list (nat * nat) * Match :=
  match js with
  | [] => (newj2len, best)
  | j :: r =>
      if j <? blo then scan_js r i blo bhi j2len newj2len best
      else if bhi <=? j then (newj2len, best)
      else
        let k := match j with
                 | O => 0
                 | S j' => j2len_get j2len j'
                 end + 1 in
        let '(_, _, bestsize) := best in
        let best' := if bestsize <? k then (i + 1 - k, j + 1 - k, k)
                     else best in
        scan_js r i blo bhi j2len ((j, k) :: newj2len) best'
  end.

(** [for i in range(alo, ahi)], [n] being the turns left. *)
Fixpoint scan_is (n i blo bhi : nat) (j2len : list (nat * nat))
         (best : Match) : Match :=
  match n with
  | O => best
  | S n' =>
      let js := match nth_error a i with
                | Some x => b2j_get x
                | None => []
                end in
      let '(newj2len, best') := scan_js js i blo bhi j2len [] best in
      scan_is n' (S i) blo bhi newj2len best'
  end.

Definition same_elt (i j : nat) : bool :=
  match nth_error a i, nth_error b j with
  | Some x, Some y => N.eqb x y
  | _, _ => false
  end.

(** The first [while]: the match grows to the left. *)
Fixpoint extend_left (alo blo besti bestj bestsize : nat) : Match :=
  match besti, bestj with
  | S i', S j' =>
      if (alo <? besti) && (blo <? bestj) && same_elt i' j'
      then extend_left alo blo i' j' (S bestsize)
      else (besti, bestj, bestsize)
  | _, _ => (besti, bestj, bestsize)
  end.

(** The second [while]: the match grows to the right; [n] is
    [ahi - (besti + bestsize)]. *)
Fixpoint extend_right (n ahi bhi besti bestj bestsize : nat) : nat :=
  match n with
  | O => bestsize
  | S n' =>
      if (besti + bestsize <? ahi) && (bestj + bestsize <? bhi)
         && same_elt (besti + bestsize) (bestj + bestsize)
      then extend_right n' ahi bhi besti bestj (S bestsize)
      else bestsize
  end.

(** [find_longest_match(alo, ahi, blo, bhi)]. The last two [while]
    loops extend the match by junk only, and nothing is junk. *)
Definition find_longest_match (alo ahi blo bhi : nat) : Match :=
  let '(besti, bestj, bestsize) :=
    scan_is (ahi - alo) alo blo bhi [] (alo, blo, 0) in
  let '(besti, bestj, bestsize) :=
    extend_left alo blo besti bestj bestsize in
  let bestsize :=
    extend_right (ahi - (besti + bestsize)) ahi bhi besti bestj bestsize in
  (besti, bestj, bestsize).

(** *** [get_matching_blocks] *)

(** The [while queue] loop; the head of [queue] is its last element.
    A block that matches takes at least one element of [a] out of the
    blocks still to look at, so the loop ends within
    [2 * len(a) + 1] turns. *)
Fixpoint blocks_loop (fuel : nat) (queue : list (nat * nat * nat * nat))
         (matching_blocks : list Match) : list Match :=
  match fuel with
  | O => matching_blocks
  | S fuel' =>
      match queue with
      | [] => matching_blocks
      | (alo, ahi, blo, bhi) :: queue' =>
          let '(i, j, k) := find_longest_match alo ahi blo bhi in
          if k =? 0 then blocks_loop fuel' queue' matching_blocks
          else
            let q1 := if (alo <? i) && (blo <? j)
                      then (alo, i, blo, j) :: queue' else queue' in
            let q2 := if (i + k <? ahi) && (j + k <? bhi)
                      then (i + k, ahi, j + k, bhi) :: q1 else q1 in
            blocks_loop fuel' q2 (matching_blocks ++ [(i, j, k)])
      end
  end.

(** [x <= y] on triples. *)
Definition match_leb (x y : Match) : bool :=
  let '(i1, j1, k1) := x in
  let '(i2, j2, k2) := y in
  (i1 <? i2) || ((i1 =? i2) && ((j1 <? j2) || ((j1 =? j2) && (k1 <=? k2)))).

Fixpoint insert_sorted (x : Match) (l : list Match) : list Match :=
  match l with
  | [] => [x]
  | y :: r => if match_leb x y then x :: l else y :: insert_sorted x r
  end.

(** [matching_blocks.sort()]. *)
Definition sort_blocks (l : list Match) : list Match :=
  fold_right insert_sorted [] l.

(** The loop that collapses adjacent blocks. *)
Fixpoint collapse (l : list Match) (cur : Match) : list Match :=
  let '(i1, j1, k1) := cur in
  match l with
  | [] => if k1 =? 0 then [] else [cur]
  | (i2, j2, k2) :: r =>
      if (i1 + k1 =? i2) && (j1 + k1 =? j2) then collapse r (i1, j1, k1 + k2)
      else (if k1 =? 0 then [] else [cur]) ++ collapse r (i2, j2, k2)
  end.

Definition get_matching_blocks : list Match :=
  let la := length a in
  let lb := length b in
  let blocks := blocks_loop (S (2 * la)) [(0, la, 0, lb)] [] in
  collapse (sort_blocks blocks) (0, 0, 0) ++ [(la, lb, 0)].

(** *** The ratios *)

Definition _calculate_ratio (matches length : nat) : Q :=
  match length with
  | O => 1%Q
  | S _ => Qmake (2 * Z.of_nat matches) (Pos.of_nat length)
  end.

Definition ratio : Q :=
  let matches :=
    fold_left (fun acc (t : Match) => acc + snd t) get_matching_blocks 0 in
  _calculate_ratio matches (length a + length b).

(** [avail.get(elt)], [None] for an absent key. *)
Fixpoint avail_get (avail : list (char * Z)) (x : char) : option Z :=
  match avail with
  | [] => None
  | (y, n) :: r => if N.eqb y x then Some n else avail_get r x
  end.

(** The loop of [quick_ratio] over the elements of [a]; the newest
    entry of [avail] for a key is the first. *)
Fixpoint quick_matches (l : pystr) (avail : list (char * Z)) (matches : nat)
  : nat :=
  match l with
  | [] => matches
  | elt :: r =>
      let numb := match avail_get avail elt with
                  | Some n => n
                  | None => Z.of_nat (length (indices_from 0 b elt))
                  end in
      quick_matches r ((elt, (numb - 1)%Z) :: avail)
                    (if (0 <? numb)%Z then S matches else matches)
  end.

Definition quick_ratio : Q :=
  _calculate_ratio (quick_matches a [] 0) (length a + length b).

Definition real_quick_ratio : Q :=
  _calculate_ratio (Nat.min (length a) (length b)) (length a + length b).

End SequenceMatcher.

(** [(r1, x1) > (r2, x2)] on the tuples [(score, possibility)]. *)
Definition scored_gtb (p q : Q * pystr) : bool :=
  if Qeq_bool (fst p) (fst q) then str_ltb (snd q) (snd p)
  else negb (Qle_bool (fst p) (fst q)).

(** [max(result)]: the first of the greatest tuples. *)
Fixpoint max_scored (cur : Q * pystr) (l : list (Q * pystr)) : Q * pystr :=
  match l with
  | [] => cur
  | p :: r => max_scored (if scored_gtb p cur then p else cur) r
  end.

(** The tuples [(s.ratio(), x)] that the loop of [get_close_matches]
    collects. *)
Definition close_enough (cutoff : Q) (word : pystr) (possibilities : list pystr)
  : list (Q * pystr) :=
  flat_map
    (fun x =>
       if Qle_bool cutoff (real_quick_ratio x word)
          && Qle_bool cutoff (quick_ratio x word)
          && Qle_bool cutoff (ratio x word)
       then [(ratio x word, x)] else [])
    possibilities.

(** [get_close_matches(word, possibilities, n=1, cutoff)]:
    [heapq.nlargest(1, result)] is [max(result)] when there is one. *)
Definition get_close_matches_1 (word : pystr) (possibilities : list pystr)
           (cutoff : Q) : list pystr :=
  match close_enough cutoff word possibilities with
  | [] => []
  | p :: r => [snd (max_scored p r)]
  end.

End Difflib.

(* ================================================================== *)
(** * [app.py] *)
(* ================================================================== *)

Local Open Scope string_scope.

Definition AI_FIELDS : list pystr := map str [
  "Project Name"; "Specific Sector(s)"; "Region of operation";
  "Main country of current operations";
  "Business Model"; "Maturity stage"; "Core team"; "Key risks";
  "Last 12 months revenues (USD)"; "Breakeven year"; "Market size or SOM (USD)";
  "Expected IRR (%)"; "Financing need or round size (USD)"; "Instrument";
  "Use of proceeds (%)"; "Impact Area"; "3 main SDGs targeted";
  "Problem"; "Solution"; "Barrier(s) to entry" ].

Definition SDG_OPTIONS : list pystr := map str [
  "No poverty (SDG 1)";
  "Zero hunger (SDG 2)";
  "Good health and well-being (SDG 3)";
  "Quality education (SDG 4)";
  "Gender equality (SDG 5)";
  "Clean water and sanitation (SDG 6)";
  "Affordable and clean energy (SDG 7)";
  "Decent work and economic growth (SDG 8)";
  "Industry, innovation and infrastructure (SDG 9)";
  "Reduced inequalities (SDG 10)";
  "Sustainable cities and communities (SDG 11)";
  "Responsible consumption and production (SDG 12)";
  "Climate action (SDG 13)";
  "Life below water (SDG 14)";
  "Life on land (SDG 15)";
  "Peace, justice, and strong institutions (SDG 16)";
  "Partnerships for the goals (SDG 17)" ].

(** ** [_match_sdgs] *)

(** One turn of the [for] loop, up to its [break]: [matched] after the
    candidate [s]. *)
Definition match_step (matched : list pystr) (s : pystr) : list pystr :=
  match Difflib.get_close_matches_1 s SDG_OPTIONS (6 # 10) with
  | c :: _ => if negb (mem c matched) then matched ++ [c] else matched
  | [] => matched
  end.

(** The [for s in raw_list] loop from a given [matched]. *)
Fixpoint match_loop (raw_list : list pystr) (matched : list pystr) : list pystr :=
  match raw_list with
  | [] => matched
  | s :: rest =>
      let matched' := match_step matched s in
      if (3 <=? length matched')%nat then matched'
      else match_loop rest matched'
  end.

Definition _match_sdgs (raw_list : list pystr) : list pystr :=
  match_loop raw_list [].

(** ** [extract_text_from_file] *)

Section Extractor.

(** The libraries that read a document, each for the text it gives or
    the exception it raises. *)

(** [Path(path).suffix.lower()] *)
Variable suffix_lower : pystr -> pystr.
(** [page.get_text()] for the pages of [fitz.open(path)] *)
Variable fitz_pages : pystr -> result (list pystr).
(** [p.text] for the paragraphs of [Document(path)] *)
Variable docx_paragraphs : pystr -> result (list pystr).
(** The shapes of the slides of [Presentation(path)]: [shape.text] where
    [hasattr(shape, "text")], [None] elsewhere *)
Variable pptx_shapes : pystr -> result (list (list (option pystr))).
(** [pd.read_excel(path).to_csv(index=False)] *)
Variable read_excel_to_csv : pystr -> result pystr.

Definition extract_text_from_pdf (path : pystr) : result pystr :=
  pages <- fitz_pages path ;;
  Ok (join LF pages).

Definition extract_text_from_file (path : pystr) : result pystr :=
  let ext := suffix_lower path in
  if str_eqb ext (str ".pdf") then extract_text_from_pdf path
  else if str_eqb ext (str ".docx") then
    paragraphs <- docx_paragraphs path ;;
    Ok (join LF paragraphs)
  else if str_eqb ext (str ".pptx") then
    slides <- pptx_shapes path ;;
    Ok (join LF
          (flat_map
             (fun shapes =>
                flat_map (fun shape => match shape with
                                       | Some text => [text]
                                       | None => []
                                       end) shapes)
             slides))
  else if mem ext [str ".xls"; str ".xlsx"] then
    match read_excel_to_csv path with
    | Ok csv => Ok csv
    | Raise _ => Ok []
    end
  else Ok [].

End Extractor.

(** ** [_parse_json_from_string] and [summarize_project_with_gpt] *)

Record ChatMessage := { role : pystr; content : pystr }.

Record ChatRequest := {
  model : pystr;
  messages : list ChatMessage;
  temperature : Q;
  max_tokens : Z
}.

(** A completion, for [resp.choices[i].message.content] ([None] when the
    content is null). *)
Definition ChatResponse := list (option pystr).

(** What [summarize_project_with_gpt] leaves behind: the messages shown
    with [st.error], and the value it returns or the exception it lets
    through. *)
Record Outcome := {
  shown : list pystr;
  returned : result pyval
}.

(** The sentinel ["Unknown"]. *)
Definition Unknown : pyval := PStr (str "Unknown").

(** The loop [for k in ks: summary.setdefault(k, "Unknown")] on a [dict]. *)
Definition fill (ks : list pystr) (summary : dict) : dict :=
  fold_left (fun d k => setdefault d k Unknown) ks summary.

(** The Merge/Defaulting step: that loop over [AI_FIELDS]. *)
Definition defaulting (summary : dict) : dict := fill AI_FIELDS summary.

(** The arguments of [openai.ChatCompletion.create]. *)
Definition chat_request (full_text : pystr) : ChatRequest :=
  let text := slice full_text 0 15000 in
  let system_prompt :=
    (str "You are an expert impact investment analyst. "
     ++ str "Extract these fields and return only a JSON object with keys: "
     ++ join (str ", ") AI_FIELDS)%list in
  let user_prompt := (str "Pitch Content:" ++ LF ++ text)%list in
  {| model := str "gpt-3.5-turbo-16k";
     messages := [ {| role := str "system"; content := system_prompt |};
                   {| role := str "user"; content := user_prompt |} ];
     temperature := 0;
     max_tokens := 2000 |}.

Section Summarizer.

(** What is left of the recursion limit when [json.loads] is called. *)
Variable recursion_limit : nat.

(** [openai.ChatCompletion.create] *)
Variable create : ChatRequest -> result ChatResponse.

Definition _parse_json_from_string (payload : pystr) : pyval :=
  match Json.loads recursion_limit payload with
  | Ok v => v
  | Raise _ =>
      if contains (ord "{") payload && contains (ord "}") payload then
        let snippet :=
          slice payload (find (ord "{") payload)
                (rfind (ord "}") payload + 1) in
        match Json.loads recursion_limit snippet with
        | Ok v => v
        | Raise _ => PDict []
        end
      else PDict []
  end.

(** The body of the [try]. *)
Definition request_summary (full_text : pystr) : result pyval :=
  resp <- create (chat_request full_text) ;;
  choice <- match resp with
            | c :: _ => Ok c
            | [] => Raise (mk_exn IndexError (str "list index out of range"))
            end ;;
  raw <- match choice with
         | Some c => Ok (strip c)
         | None => Raise (mk_exn AttributeError
                            (str "'NoneType' object has no attribute 'strip'"))
         end ;;
  Ok (_parse_json_from_string raw).

(** The loop over [AI_FIELDS] on whatever [summary] is: only a [dict]
    has [setdefault]. *)
Definition fill_defaults (summary : pyval) : result pyval :=
  match summary with
  | PDict d => Ok (PDict (defaulting d))
  | _ => Raise (mk_exn AttributeError
                  (str "'" ++ type_name summary
                   ++ str "' object has no attribute 'setdefault'")%list)
  end.

Definition summarize_project_with_gpt (full_text : pystr) : Outcome :=
  match request_summary full_text with
  | Ok summary => {| shown := []; returned := fill_defaults summary |}
  | Raise e =>
      if is_Exception e then
        {| shown := [(str "OpenAI API error: " ++ exn_msg e)%list];
           returned := fill_defaults (PDict []) |}
      else {| shown := []; returned := Raise e |}
  end.

End Summarizer.

(* ================================================================== *)
(** * Vocabulary of the statements *)
(* ================================================================== *)

Local Close Scope string_scope.

(** [Subseq l m]: [l] is [m] with some elements left out, the others in
    the order they have in [m]. *)
Inductive Subseq {A : Type} : list A -> list A -> Prop :=
| Subseq_nil : forall m, Subseq [] m
| Subseq_take : forall x l m, Subseq l m -> Subseq (x :: l) (x :: m)
| Subseq_skip : forall x l m, Subseq l m -> Subseq l (x :: m).

(** The closest label of each candidate, in the order of the candidates:
    what [_match_sdgs] picks from. *)
Definition closest_labels (raw_list : list pystr) : list pystr :=
  flat_map (fun s => Difflib.get_close_matches_1 s SDG_OPTIONS (6 # 10)) raw_list.

(** A literal of a float as JSON has them: [NUMBER_RE] matches all of
    it, with a fraction or an exponent. *)
Definition is_float_literal (lit : pystr) : bool :=
  match Json.match_number lit with
  | Some (Ok (PFloat (FDecimal l)), []) => str_eqb l lit
  | _ => false
  end.

(** The value shapes of the schema: a string; an integer that the
    interpreter converts to text, so of at most 4300 digits; a float; a
    list of strings. A finite float is held as the literal that
    [float.__repr__] gives for it, the one literal [lit] of that float
    with [float_repr lit = lit]; its two infinities are values of their
    own. Not-a-number is no value of the schema: it is not equal to
    itself. *)
Definition is_schema_value (float_repr : pystr -> pystr) (v : pyval) : bool :=
  match v with
  | PStr _ => true
  | PInt z =>
      negb (Json.too_many_digits (length (JsonEncoder.digits_of_int (Z.abs z))))
  | PFloat (FDecimal lit) => is_float_literal lit && str_eqb (float_repr lit) lit
  | PFloat FPosInf | PFloat FNegInf => true
  | PList l => forallb (fun x => match x with PStr _ => true | _ => false end) l
  | _ => false
  end.

Fixpoint distinct (l : list pystr) : bool :=
  match l with
  | [] => true
  | x :: r => negb (mem x r) && distinct r
  end.

(** A record of the schema's value shapes: a [dict], so with distinct
    keys, whose values have these shapes. *)
Definition is_schema_record (float_repr : pystr -> pystr) (r : dict) : bool :=
  distinct (keys r) && forallb (fun kv => is_schema_value float_repr (snd kv)) r.

(** The text that [json.dump(record, fp, ensure_ascii=False, indent=2)]
    writes for a record, or the exception it raises. *)
Definition serialize (float_repr : pystr -> pystr) (r : dict) : result pystr :=
  JsonEncoder.dumps_indent2 float_repr (PDict r).

(** A record with an integer of 4301 digits, one more than the
    interpreter converts. *)
Definition long_record : dict :=
  [(str "Market size or SOM (USD)", PInt (10 ^ 4300))].

(** ** The text of the encoder, piece by piece *)

Module JsonText.

Import Json JsonEncoder.
Local Open Scope N_scope.

(** A text that does not start with a blank of [WHITESPACE]. *)
Definition starts_solid (s : pystr) : Prop :=
  match s with
  | c :: _ => is_ws c = false
  | [] => True
  end.

(** A text before which a number ends: the separator of the encoder or
    the line feed before a closing bracket. *)
Definition ends_number (s : pystr) : Prop :=
  match s with
  | c :: _ => c = 44 \/ c = 10
  | [] => True
  end.

(** A numeral in the form [Z.to_int] gives it: a single zero, or digits
    that start with another digit. *)
Definition normal (u : Decimal.uint) : Prop :=
  match u with
  | Decimal.Nil => False
  | Decimal.D0 Decimal.Nil => True
  | Decimal.D0 _ => False
  | _ => True
  end.

(** The text that the encoder writes for a value when no conversion of
    an integer raises. *)
Fixpoint text (fr : pystr -> pystr) (level : nat) (o : pyval) : pystr :=
  match o with
  | PStr s => encode_basestring s
  | PNone => str "null"
  | PBool true => str "true"
  | PBool false => str "false"
  | PInt z => digits_of_int z
  | PFloat f => floatstr fr f
  | PList [] => str "[]"
  | PList l =>
      ord "[" :: newline_indent (S level)
      ++ join (ord "," :: newline_indent (S level)) (map (text fr (S level)) l)
      ++ newline_indent level ++ [ord "]"]
  | PDict [] => str "{}"
  | PDict d =>
      ord "{" :: newline_indent (S level)
      ++ join (ord "," :: newline_indent (S level))
              (map (fun kv => encode_basestring (fst kv) ++ str ": "
                              ++ text fr (S level) (snd kv)) d)
      ++ newline_indent level ++ [ord "}"]
  end.

(** The items of an array after the first, as the encoder writes them at
    a level of indentation. *)
Definition more_items (level : nat) (l : list pystr) : pystr :=
  flat_map (fun s => 44 :: newline_indent level ++ encode_basestring s) l.

(** An entry of an object after its opening quote, and the entries
    after the first, as the encoder writes them at the top level. *)
Definition entry_body (fr : pystr -> pystr) (kv : pystr * pyval) : pystr :=
  escape_all (fst kv) ++ quote :: 58 :: 32 :: text fr 1 (snd kv).

Definition more_entries (fr : pystr -> pystr) (d : dict) : pystr :=
  flat_map (fun kv => 44 :: newline_indent 1 ++ quote :: entry_body fr kv) d.

End JsonText.

(** ** Bounds on the blocks of [difflib] *)

Module DifflibBounds.

Import Difflib.

(** The bounds of a match that ends before [i] in [a]. *)
Definition within (alo blo bhi i : nat) (m : Match) : Prop :=
  let '(bi, bj, bk) := m in
  alo <= bi /\ bi + bk <= i /\ blo <= bj /\ bj + bk <= bhi.

(** The bounds of the lengths kept in [j2len] for matches that end
    before [i] in [a]. *)
Definition lengths_within (alo blo i : nat) (j2len : list (nat * nat)) : Prop :=
  Forall (fun jk => snd jk <= i - alo /\ snd jk <= fst jk + 1 - blo) j2len.

(** What a block still to look at weighs: the turns of the loop it can
    take. *)
Definition weight (queue : list (nat * nat * nat * nat)) : nat :=
  fold_right (fun q acc => let '(alo, ahi, _, _) := q in S (2 * (ahi - alo)) + acc)
             0 queue.

Definition well_formed (q : nat * nat * nat * nat) : Prop :=
  let '(alo, ahi, blo, bhi) := q in alo <= ahi /\ blo <= bhi.

End DifflibBounds.

(* ================================================================== *)
(** * [app.py]: the submission store, the review form, the dashboard *)
(* ================================================================== *)

(** ** More of [str] *)

Module PyText.

Local Open Scope N_scope.

(** The line boundaries of [str.splitlines]. *)
Definition is_linebreak (c : char) : bool :=
  (10 <=? c) && (c <=? 13) || (28 <=? c) && (c <=? 30)
  || (c =? 133) || (c =? 8232) || (c =? 8233).

(** [s.splitlines()]: a carriage return and the line feed after it are
    one boundary, and no empty line follows the last boundary. *)
Fixpoint splitlines (s : pystr) : list pystr :=
  match s with
  | [] => []
  | c :: r =>
      if is_linebreak c then
        [] :: match r with
              | c' :: r' =>
                  if (c =? 13) && (c' =? 10) then splitlines r'
                  else splitlines r
              | [] => []
              end
      else
        match splitlines r with
        | line :: lines => (c :: line) :: lines
        | [] => [[c]]
        end
  end.

(** [s.split(sep)] for a one-character [sep]. *)
Fixpoint split (sep : char) (s : pystr) : list pystr :=
  match s with
  | [] => [[]]
  | c :: r =>
      if c =? sep then [] :: split sep r
      else
        match split sep r with
        | part :: parts => (c :: part) :: parts
        | [] => [[c]]
        end
  end.

(** [s.split(sep, 1)] where [sep in s], for the two parts; [None] where
    [sep] is not in [s]. *)
Fixpoint split_once (sep : char) (s : pystr) : option (pystr * pystr) :=
  match s with
  | [] => None
  | c :: r =>
      if c =? sep then Some ([], r)
      else
        match split_once sep r with
        | Some (k, v) => Some (c :: k, v)
        | None => None
        end
  end.

(** [s.replace(old, new)] for a one-character [old]. *)
Definition replace (old : char) (new : pystr) (s : pystr) : pystr :=
  flat_map (fun c => if c =? old then new else [c]) s.

(** [s.startswith(p)]. *)
Fixpoint startswith (p s : pystr) : bool :=
  match p, s with
  | [], _ => true
  | x :: p', y :: s' => (x =? y) && startswith p' s'
  | _ :: _, [] => false
  end.

(** [a in b] for two [str]. *)
Fixpoint substring (a b : pystr) : bool :=
  startswith a b
  || match b with
     | [] => false
     | _ :: r => substring a r
     end.

(** [f"{n:04d}"]: the digits of [n], with zeros between the sign and the
    digits up to a width of four, for an [n] within the interpreter's
    limit of 4300 digits. *)
Definition format_04d (n : Z) : pystr :=
  let digits := JsonEncoder.digits_of_int (Z.abs n) in
  if (n <? 0)%Z then ord "-" :: repeat 48 (3 - length digits) ++ digits
  else repeat 48 (4 - length digits) ++ digits.

End PyText.

(** [d.get(k, default)]. *)
Definition get_default (d : dict) (k : pystr) (default : pyval) : pyval :=
  match dict_get d k with
  | Some v => v
  | None => default
  end.

(** ** [json.dump(obj, fp)] *)

(** The call with which [_save_submission] writes the PIN and the
    dashboard writes a status: the default encoder, so [ensure_ascii] and
    the separators [", "] and [": "]. *)

Module JsonDefault.

Import JsonEncoder.
Local Open Scope N_scope.

(** ['{0:04x}'.format(n)]. *)
Definition hex4 (n : N) : pystr :=
  [hex_digit (n / 4096); hex_digit ((n / 256) mod 16);
   hex_digit ((n / 16) mod 16); hex_digit (n mod 16)].

(** What [ESCAPE_ASCII] replaces a character by, or the character. *)
Definition escape_ascii (c : char) : pystr :=
  match escape c with
  | Some e => e
  | None =>
      if (32 <=? c) && (c <=? 126) then [c]
      else if c <? 65536 then Json.backslash :: ord "u" :: hex4 c
      else
        let n := c - 65536 in
        let s1 := N.lor 55296 (N.land (N.shiftr n 10) 1023) in
        let s2 := N.lor 56320 (N.land n 1023) in
        Json.backslash :: ord "u" :: hex4 s1
        ++ Json.backslash :: ord "u" :: hex4 s2
  end.

(** [py_encode_basestring_ascii(s)]. *)
Definition encode_basestring_ascii (s : pystr) : pystr :=
  Json.quote :: flat_map escape_ascii s ++ [Json.quote].

(** [json.dump({key: value}, fp)] for a [str] value, as text: the chunks
    that [_iterencode_dict] yields for a dict of one entry. *)
Definition dump_entry (key value : pystr) : pystr :=
  ord "{"
  :: (encode_basestring_ascii key ++ str ": " ++ encode_basestring_ascii value)
  ++ [ord "}"].

End JsonDefault.

(** ** The metadata file [info.txt] *)

(** A [dict] whose values are [str], as [form_meta] and [info] are. *)
Definition textdict := list (pystr * pystr).

(** [d.get(k, default)] and [d[k] = v] on such a [dict]. *)
Fixpoint text_get (d : textdict) (k default : pystr) : pystr :=
  match d with
  | [] => default
  | (k', v) :: r => if str_eqb k' k then v else text_get r k default
  end.

Fixpoint text_set (d : textdict) (k v : pystr) : textdict :=
  match d with
  | [] => [(k, v)]
  | (k', v') :: r =>
      if str_eqb k' k then (k', v) :: r else (k', v') :: text_set r k v
  end.

(** [st.session_state.form_meta], each value as the f-string of
    [meta_text] writes it. *)
Definition form_meta (proj inc_date country sector email : pystr) : textdict :=
  [ (str "Project", proj);
    (str "Incorporation date", inc_date);
    (str "Country HQ", country);
    (str "Sector", sector);
    (str "Email", email) ].

(** [meta_text] of [_save_submission] and [_update_submission]. *)
Definition meta_text (meta : textdict) : pystr :=
  join LF (map (fun kv => fst kv ++ str ": " ++ snd kv) meta)
  ++ LF ++ str "NDA: Accepted" ++ LF.

(** One turn of the loop that reads [info.txt] back, in the dashboard,
    the export and the edit mode. *)
Definition read_info_line (info : textdict) (line : pystr) : textdict :=
  match PyText.split_once (ord ":") line with
  | Some (k, v) => text_set info (strip k) (strip v)
  | None => info
  end.

(** That loop over [text.splitlines()], from the empty [info]. *)
Definition read_info (text : pystr) : textdict :=
  fold_left read_info_line (PyText.splitlines text) [].

(** [form_meta] as the edit mode builds it from [info], [today] being
    [datetime.now().date()] as text. *)
Definition form_meta_of_info (today : pystr) (info : textdict) : textdict :=
  form_meta (text_get info (str "Project") [])
            (text_get info (str "Incorporation date") today)
            (text_get info (str "Country HQ") [])
            (text_get info (str "Sector") [])
            (text_get info (str "Email") []).

(** ** The SDG candidates of the review form *)

(** [raw_list] for a [str] value of the field: the parts between
    semicolons, stripped, the blank ones left out. *)
Definition sdg_candidates (raw_sdgs : pystr) : list pystr :=
  flat_map (fun s => match strip s with
                     | [] => []
                     | t => [t]
                     end)
           (PyText.split (ord ";") raw_sdgs).

(** [default_sdgs] for a [str] value of the field. *)
Definition default_sdgs (raw_sdgs : pystr) : list pystr :=
  _match_sdgs (sdg_candidates raw_sdgs).

(** ** The record of the review form *)

(** The keys that the review form assigns in [edited], in the order of
    the assignments. *)
Definition review_fields : list pystr :=
  [ str "Project Name"; str "Business Model"; str "Maturity stage";
    str "Core team"; str "Impact Area"; str "Key risks";
    str "Barrier(s) to entry";
    str "Last 12 months revenues (USD)"; str "Market size or SOM (USD)";
    str "Financing need or round size (USD)"; str "Breakeven year";
    str "Expected IRR (%)"; str "Use of proceeds (%)";
    str "3 main SDGs targeted"; str "Problem"; str "Solution" ].

(** [edited] when the form has been drawn: [widget f] is what the widget
    labelled [f] returns. *)
Definition edited (widget : pystr -> pyval) : dict :=
  fold_left (fun d f => dict_set d f (widget f)) review_fields [].

(** ** The stage and the PIN of a submission *)

Definition REVIEW_STAGES : list pystr :=
  [ str "Identified"; str "Intro call"; str "NDA and Deck"; str "Financials";
    str "4-pager"; str "IC1"; str "IC2"; str "Local DD"; str "Raised";
    str "Operating"; str "Exited"; str "Bankrupt" ].

Definition Identified : pyval := PStr (str "Identified").

(** [l.index(x)] where [x in l]. *)
Fixpoint index (x : pystr) (l : list pystr) : nat :=
  match l with
  | [] => O
  | y :: r => if str_eqb y x then O else S (index x r)
  end.

(** [REVIEW_STAGES.index(status_val) if status_val in REVIEW_STAGES else 0],
    the option that the selectbox of a submission shows. *)
Definition stage_index (status_val : pyval) : nat :=
  match status_val with
  | PStr s => if mem s REVIEW_STAGES then index s REVIEW_STAGES else O
  | _ => O
  end.

(** [AttributeError] for an attribute that [v] does not have. *)
Definition no_attribute (v : pyval) (name : string) : exn :=
  mk_exn AttributeError
         (str "'" ++ type_name v ++ str "' object has no attribute '"
          ++ str name ++ str "'").

Section Stored.

(** What is left of the recursion limit when [json.load] is called. *)
Variable recursion_limit : nat.

(** [status] as the dashboard reads it, [status_json] being the text of
    [status.json] where the file exists: any exception leaves the
    default. *)
Definition read_status (status_json : option pystr) : pyval :=
  match status_json with
  | None => Identified
  | Some text =>
      match Json.loads recursion_limit text with
      | Ok (PDict d) => get_default d (str "status") Identified
      | _ => Identified
      end
  end.

(** [status_val] as the export reads it: [json.load(...)['status']],
    outside any [try]. *)
Definition export_status (status_json : option pystr) : result pyval :=
  match status_json with
  | None => Ok Identified
  | Some text =>
      v <- Json.loads recursion_limit text ;;
      match v with
      | PDict d =>
          match dict_get d (str "status") with
          | Some s => Ok s
          | None => Raise (mk_exn (OtherException "KeyError") (str "'status'"))
          end
      | PList _ =>
          Raise (mk_exn (OtherException "TypeError")
                        (str "list indices must be integers or slices, not str"))
      | PStr _ =>
          Raise (mk_exn (OtherException "TypeError")
                        (str "string indices must be integers, not 'str'"))
      | _ =>
          Raise (mk_exn (OtherException "TypeError")
                        (str "'" ++ type_name v
                         ++ str "' object is not subscriptable"))
      end
  end.

(** [creds.get("pin") == epin] for the text of [credentials.json]. *)
Definition pin_accepted (credentials_json epin : pystr) : result bool :=
  creds <- Json.loads recursion_limit credentials_json ;;
  match creds with
  | PDict d =>
      Ok match dict_get d (str "pin") with
         | Some (PStr pin) => str_eqb pin epin
         | _ => false
         end
  | _ => Raise (no_attribute creds "get")
  end.

End Stored.

(** ** The export *)

(** The columns of the exported table. *)
Definition export_columns : list pystr :=
  [ str "Project"; str "Country"; str "Sector"; str "Status"; str "Email" ]
  ++ AI_FIELDS.

Section ExportRows.

(** [str(v)] for a float, a list or a dict. *)
Variable str_other : pyval -> pystr.

(** [str(v)], an [int] being within the interpreter's limit of 4300
    digits, as every [int] that [json.loads] returned is. *)
Definition py_str (v : pyval) : pystr :=
  match v with
  | PStr s => s
  | PNone => str "None"
  | PBool true => str "True"
  | PBool false => str "False"
  | PInt z => JsonEncoder.digits_of_int z
  | _ => str_other v
  end.

(** An item of a list value: the ["Name"] of a dict, [str(m)] of any
    other item. *)
Definition export_item (m : pyval) : pystr :=
  match m with
  | PDict d => py_str (get_default d (str "Name") (PStr []))
  | _ => py_str m
  end.

Definition export_value (v : pyval) : pyval :=
  match v with
  | PList l => PStr (join (str "; ") (map export_item l))
  | _ => v
  end.

(** [row] for the folder [fld], before the loop over [parsed.items()]:
    the keys of [AI_FIELDS] with the empty text, then the metadata. *)
Definition export_row_start (fld : pystr) (info : textdict)
           (status_val : pyval) : dict :=
  let row := fold_left (fun r f => dict_set r f (PStr [])) AI_FIELDS [] in
  fold_left (fun r kv => dict_set r (fst kv) (snd kv))
    [ (str "Project", PStr (text_get info (str "Project") fld));
      (str "Country HQ", PStr (text_get info (str "Country HQ") []));
      (str "Sector", PStr (text_get info (str "Sector") []));
      (str "Status", status_val);
      (str "Email", PStr (text_get info (str "Email") [])) ]
    row.

(** One turn of that loop. *)
Definition export_step (row : dict) (kv : pystr * pyval) : dict :=
  if mem (fst kv) AI_FIELDS
  then dict_set row (fst kv) (export_value (snd kv))
  else row.

(** [row] for the folder [fld]. *)
Definition export_row (fld : pystr) (info : textdict) (status_val : pyval)
           (parsed : pyval) : result dict :=
  let row := export_row_start fld info status_val in
  match parsed with
  | PDict d => Ok (fold_left export_step d row)
  | _ => Raise (no_attribute parsed "items")
  end.

(** The cells of a row in [pd.DataFrame(rows).reindex(columns=...)]:
    [None] is a missing value, for a column that the row has no key
    for. *)
Definition export_cells (row : dict) : list (option pyval) :=
  map (dict_get row) export_columns.

End ExportRows.

(** ** The filters of the dashboard *)

(** A float: a finite one for its exact value. *)
Inductive pynum :=
| Finite (q : Q)
| NotANumber
| PosInfinity
| NegInfinity.

(** [x < bound] and [x > bound] for a float and a finite number. *)
Definition below (x : pynum) (bound : Q) : bool :=
  match x with
  | Finite q => negb (Qle_bool bound q)
  | NegInfinity => true
  | _ => false
  end.

Definition above (x : pynum) (bound : Q) : bool :=
  match x with
  | Finite q => negb (Qle_bool q bound)
  | PosInfinity => true
  | _ => false
  end.

(** What the sidebar returns. *)
Record Filters := {
  hq_filter : pystr;
  sector_filter : list pystr;
  main_country_filter : pystr;
  sdg_filter : list pystr;
  geography_filter : list pystr;
  maturity_filter : list pystr;
  min_rev : Q;
  max_rev : Q;
  min_som : Q;
  max_som : Q;
  min_irr : Q;
  max_irr : Q
}.

(** [v not in l] for a list [l] of [str]. *)
Definition not_among (v : pyval) (l : list pystr) : bool :=
  match v with
  | PStr s => negb (mem s l)
  | _ => true
  end.

(** [sdg_list]. *)
Definition sdg_list_of (sdg_raw : pyval) : pyval :=
  match sdg_raw with
  | PStr s => PList (map (fun part => PStr (strip part))
                         (PyText.split (ord ";") s))
  | _ => sdg_raw
  end.

(** [s not in sdg_list]. *)
Definition not_in (s : pystr) (sdg_list : pyval) : result bool :=
  match sdg_list with
  | PList l =>
      Ok (negb (existsb (fun x => match x with
                                  | PStr t => str_eqb t s
                                  | _ => false
                                  end) l))
  | PDict d =>
      Ok match dict_get d s with
         | Some _ => false
         | None => true
         end
  | PStr t => Ok (negb (PyText.substring s t))
  | _ => Raise (mk_exn (OtherException "TypeError")
                       (str "argument of type '" ++ type_name sdg_list
                        ++ str "' is not iterable"))
  end.

(** [any(s not in sdg_list for s in sdg_filter)]. *)
Fixpoint any_not_in (sdg_filter : list pystr) (sdg_list : pyval)
  : result bool :=
  match sdg_filter with
  | [] => Ok false
  | s :: rest =>
      missing <- not_in s sdg_list ;;
      if missing then Ok true else any_not_in rest sdg_list
  end.

(** [summary_dict.get(k, default)] on whatever [summary_dict] is. *)
Definition summary_get (summary_dict : pyval) (k : pystr) (default : pyval)
  : result pyval :=
  match summary_dict with
  | PDict d => Ok (get_default d k default)
  | _ => Raise (no_attribute summary_dict "get")
  end.

Definition nonempty {A} (l : list A) : bool :=
  match l with
  | [] => false
  | _ :: _ => true
  end.

Section Dashboard.

(** [s.lower()] *)
Variable lower : pystr -> pystr.
(** [float(s)] for a [str]: [None] for [ValueError] *)
Variable float : pystr -> option pynum.

(** A numeric field as the filters read it: the [try] with its bare
    [except]. *)
Definition numeric_value (summary_dict : pyval) (field default : pystr)
           (sign : char) : pynum :=
  match summary_dict with
  | PDict d =>
      match get_default d field (PStr default) with
      | PStr s =>
          match float (PyText.replace sign [] s) with
          | Some x => x
          | None => Finite 0
          end
      | _ => Finite 0
      end
  | _ => Finite 0
  end.

(** The filters on one submission: [Ok true] where its record is kept,
    [Ok false] where the loop goes on to the next folder. *)
Definition record_passes (f : Filters) (info : textdict) (summary_dict : pyval)
  : result bool :=
  if nonempty (hq_filter f)
     && negb (PyText.substring (lower (hq_filter f))
                               (lower (text_get info (str "Country HQ") [])))
  then Ok false else
  if nonempty (sector_filter f)
     && negb (mem (text_get info (str "Sector") []) (sector_filter f))
  then Ok false else
  skip <- (if nonempty (main_country_filter f) then
             v <- summary_get summary_dict
                    (str "Main country of current operations") (PStr []) ;;
             match v with
             | PStr s =>
                 Ok (negb (PyText.substring (lower (main_country_filter f))
                                            (lower s)))
             | _ => Raise (no_attribute v "lower")
             end
           else Ok false) ;;
  if skip : bool then Ok false else
  sdg_raw <- summary_get summary_dict (str "3 main SDGs targeted") (PStr []) ;;
  let sdg_list := sdg_list_of sdg_raw in
  skip <- (if nonempty (sdg_filter f) then any_not_in (sdg_filter f) sdg_list
           else Ok false) ;;
  if skip : bool then Ok false else
  skip <- (if nonempty (geography_filter f) then
             v <- summary_get summary_dict (str "Region of operation")
                    (PStr []) ;;
             Ok (not_among v (geography_filter f))
           else Ok false) ;;
  if skip : bool then Ok false else
  skip <- (if nonempty (maturity_filter f) then
             v <- summary_get summary_dict (str "Maturity stage") (PStr []) ;;
             Ok (not_among v (maturity_filter f))
           else Ok false) ;;
  if skip : bool then Ok false else
  let rev_val :=
    numeric_value summary_dict (str "Last 12 months revenues (USD)") (str "0")
                  (ord ",") in
  if below rev_val (min_rev f) || above rev_val (max_rev f) then Ok false else
  let som_val :=
    numeric_value summary_dict (str "Market size or SOM (USD)") (str "0")
                  (ord ",") in
  if below som_val (min_som f) || above som_val (max_som f) then Ok false else
  let irr_val :=
    numeric_value summary_dict (str "Expected IRR (%)") [] (ord "%") in
  if below irr_val (min_irr f) || above irr_val (max_irr f) then Ok false else
  Ok true.

End Dashboard.

(** ** The folder of a submission *)

Definition UPLOAD_FOLDER : pystr := str "submissions".

(** [os.path] on a POSIX system. *)
Module PosixPath.

Local Open Scope N_scope.

(** [path.endswith('/')]. *)
Definition endswith_sep (path : pystr) : bool :=
  match rev path with
  | c :: _ => c =? 47
  | [] => false
  end.

(** One turn of the loop of [os.path.join]: [path] after the component
    [b]. *)
Definition join (path b : pystr) : pystr :=
  if PyText.startswith [47] b then b
  else if negb (nonempty path) || endswith_sep path then path ++ b
  else path ++ 47 :: b.

(** [os.path.basename(p)]. *)
Definition basename (p : pystr) : pystr :=
  skipn (Z.to_nat (rfind 47 p + 1)) p.

End PosixPath.

(** [fld] of [_save_submission], [ts] being the time stamp. *)
Definition submission_folder (project ts : pystr) : pystr :=
  let safe_proj := PyText.replace 32%N [95%N] project in
  PosixPath.join UPLOAD_FOLDER (safe_proj ++ str "_" ++ ts).

(** [proj_id], the Project ID shown after a submission. *)
Definition project_id (fld : pystr) : pystr := PosixPath.basename fld.

(** [base], the folder that the edit mode opens for a Project ID. *)
Definition edit_folder (eid : pystr) : pystr := PosixPath.join UPLOAD_FOLDER eid.

(** ** Vocabulary of the statements on these parts *)

(** A text without a line boundary, and a text of printable ASCII
    characters. *)
Definition single_line (s : pystr) : bool :=
  forallb (fun c => negb (PyText.is_linebreak c)) s.

Definition printable (s : pystr) : bool :=
  forallb (fun c => (32 <=? c) && (c <=? 126))%N s.

(** [isinstance(v, str)]. *)
Definition is_str (v : pyval) : bool :=
  match v with
  | PStr _ => true
  | _ => false
  end.

(** [info] after the assignments [info[k.strip()] = v.strip()] for the
    entries of [meta], in their order. *)
Definition info_of (meta : textdict) : textdict :=
  fold_left (fun info kv => text_set info (strip (fst kv)) (strip (snd kv)))
            meta [].

(** A stripped single line: what the values of [info] are. *)
Definition clean (v : pystr) : Prop := single_line v = true /\ strip v = v.

(** Two settings of the sidebar: a region selected, and a minimum of
    revenues. *)
Definition region_filters : Filters :=
  {| hq_filter := []; sector_filter := []; main_country_filter := [];
     sdg_filter := []; geography_filter := [str "Africa"];
     maturity_filter := [];
     min_rev := 0; max_rev := 10000000; min_som := 0;
     max_som := 100000000; min_irr := 0; max_irr := 100 |}.

Definition revenue_filters : Filters :=
  {| hq_filter := []; sector_filter := []; main_country_filter := [];
     sdg_filter := []; geography_filter := [];
     maturity_filter := [];
     min_rev := 1000; max_rev := 10000000; min_som := 0;
     max_som := 100000000; min_irr := 0; max_irr := 100 |}.

(* ================================================================== *)
(** * Facts on the built-ins *)
(* ================================================================== *)

Unset Implicit Arguments.

Lemma str_eqb_refl (a : pystr) : str_eqb a a = true.
Proof.
  induction a as [|x a IH]; simpl; [reflexivity|].
  now rewrite N.eqb_refl, IH.
Qed.

Lemma str_eqb_eq (a b : pystr) : str_eqb a b = true <-> a = b.
Proof.
  split; [|intros ->; apply str_eqb_refl].
  revert b; induction a as [|x a IH]; intros [|y b]; simpl; try discriminate; auto.
  rewrite andb_true_iff, N.eqb_eq. intros [-> H]. f_equal. now apply IH.
Qed.

Lemma str_eqb_neq (a b : pystr) : str_eqb a b = false <-> a <> b.
Proof.
  rewrite <- str_eqb_eq. destruct (str_eqb a b); split; congruence.
Qed.

Lemma mem_In (x : pystr) (l : list pystr) : mem x l = true <-> In x l.
Proof.
  unfold mem. rewrite existsb_exists. split.
  - intros (y & Hy & E). apply str_eqb_eq in E. now subst.
  - intros H. exists x. split; [assumption | apply str_eqb_refl].
Qed.

Lemma mem_not_In (x : pystr) (l : list pystr) : mem x l = false <-> ~ In x l.
Proof.
  rewrite <- mem_In. destruct (mem x l); split; congruence.
Qed.

Section DictFacts.

Implicit Types (d e : dict) (k : pystr) (v : pyval).

Lemma dict_get_app d e k :
  dict_get (d ++ e) k =
  match dict_get d k with
  | Some v => Some v
  | None => dict_get e k
  end.
Proof.
  induction d as [|[k' v'] d IH]; simpl; [reflexivity|].
  destruct (str_eqb k' k); [reflexivity | apply IH].
Qed.

Lemma dict_get_In_keys d k : dict_get d k <> None <-> In k (keys d).
Proof.
  induction d as [|[k' v'] d IH]; simpl; [tauto|].
  destruct (str_eqb k' k) eqn:E.
  - apply str_eqb_eq in E. split; [auto | discriminate].
  - apply str_eqb_neq in E. rewrite IH. split; [auto | intros [?|?]; [congruence | assumption]].
Qed.

Lemma dict_set_absent d k v :
  ~ In k (keys d) -> dict_set d k v = d ++ [(k, v)].
Proof.
  induction d as [|[k' v'] d IH]; simpl; intros H; [reflexivity|].
  destruct (str_eqb k' k) eqn:E.
  - apply str_eqb_eq in E. tauto.
  - f_equal. apply IH. tauto.
Qed.

Lemma dict_of_pairs_NoDup_gen (l acc : list (pystr * pyval)) :
  NoDup (keys (acc ++ l)) ->
  fold_left (fun d kv => dict_set d (fst kv) (snd kv)) l acc = acc ++ l.
Proof.
  revert acc; induction l as [|[k v] l IH]; intros acc H; simpl.
  - now rewrite List.app_nil_r.
  - rewrite dict_set_absent.
    + rewrite IH; rewrite <- List.app_assoc; [reflexivity | exact H].
    + unfold keys in H. rewrite map_app in H. simpl in H.
      apply NoDup_remove_2 in H. intros Hin. apply H.
      apply in_or_app. now left.
Qed.

(** [dict(d.items()) == d], in the same order. *)
Lemma dict_of_pairs_NoDup d : NoDup (keys d) -> dict_of_pairs d = d.
Proof. intros H. apply (dict_of_pairs_NoDup_gen d []). exact H. Qed.

End DictFacts.

(* ================================================================== *)
(** * The loops of the library models end within their fuel *)
(* ================================================================== *)

Section JsonFuel.

Import Json.
Local Open Scope N_scope.

Lemma _w_length s : (length (_w s) <= length s)%nat.
Proof.
induction s as [|c s IH]; simpl; [lia|].
destruct (is_ws c); simpl; lia.
Qed.

Lemma _w_cons_length s c r : _w s = c :: r -> (length r < length s)%nat.
Proof. intros H. pose proof (_w_length s) as L. rewrite H in L. simpl in L. lia. Qed.

Lemma push_Ok c m v r :
  push c m = Ok (v, r) -> exists v', m = Ok (v', r).
Proof.
unfold push. destruct m as [[chunks rest]|e]; simpl; [|discriminate].
intros H. injection H as _ ->. now exists chunks.
Qed.

(** A string is read from at least its closing quote. *)
Lemma scanstring_shrinks_upto (n : nat) : forall s v r,
  (length s <= n)%nat -> scanstring s = Ok (v, r) -> (length r < length s)%nat.
Proof.
induction n as [|n IH]; intros s v r Hn H.
- destruct s; [discriminate | simpl in Hn; lia].
- destruct s as [|c rest]; [discriminate|]. cbn [scanstring] in H.
  simpl in Hn.
  repeat match type of H with
         | Ok _ = Ok _ => injection H as _ <-; simpl; lia
         | Raise _ = Ok _ => discriminate H
         | push _ (scanstring ?x) = Ok _ =>
             apply push_Ok in H; destruct H as [v' H];
             apply IH in H; [simpl in *; lia | simpl in *; lia]
         | context [match ?x with _ => _ end] =>
             destruct x eqn:?; simpl in Hn
         | context [if ?x then _ else _] => destruct x eqn:?
         end.
Qed.

Lemma scanstring_shrinks s v r :
  scanstring s = Ok (v, r) -> (length r < length s)%nat.
Proof. apply scanstring_shrinks_upto with (length s). lia. Qed.


Lemma span_digits_length s :
  (length (snd (span_digits s)) <= length s)%nat.
Proof.
induction s as [|c s IH]; simpl; [lia|].
destruct (is_digit c); [|simpl; lia].
destruct (span_digits s); simpl in *. lia.
Qed.

Lemma match_integer_shrinks s i r :
  match_integer s = Some (i, r) -> (length r < length s)%nat.
Proof.
unfold match_integer. intros H.
assert (G : forall sign s1, (length s1 <= length s)%nat ->
            match s1 with
            | [] => None
            | c :: r0 =>
                if c =? ord "0" then Some ((sign ++ [c])%list, r0)
                else if is_digit c
                     then let (d, t) := span_digits r0 in Some ((sign ++ c :: d)%list, t)
                     else None
            end = Some (i, r) -> (length r < length s)%nat).
{ intros sign [|c r0] L E; [discriminate|]. simpl in L.
  destruct (c =? ord "0"); [injection E as _ <-; lia|].
  destruct (is_digit c); [|discriminate].
  pose proof (span_digits_length r0) as SD. destruct (span_digits r0).
  injection E as _ <-. simpl in SD. lia. }
destruct s as [|c r0]; [discriminate|].
destruct (c =? ord "-");
  [apply (G [c] r0) in H | apply (G [] (c :: r0)) in H]; simpl in *; lia.
Qed.

Lemma match_frac_length s : (length (snd (match_frac s)) <= length s)%nat.
Proof.
destruct s as [|c r]; [simpl; lia|]. unfold match_frac.
destruct (c =? _); [|simpl; lia].
pose proof (span_digits_length r) as SD.
destruct (span_digits r) as [[|d ds] t]; simpl in *; lia.
Qed.

Lemma match_exp_length s : (length (snd (match_exp s)) <= length s)%nat.
Proof.
destruct s as [|c r]; [simpl; lia|]. unfold match_exp.
destruct (_ || _); [|simpl; lia].
assert (G : forall sg r1, (length r1 <= length r)%nat ->
            (length (snd match span_digits r1 with
                         | ([], _) => ([], c :: r)
                         | (d, t) => ((c :: sg ++ d)%list, t)
                         end) <= length (c :: r))%nat).
{ intros sg r1 L. pose proof (span_digits_length r1) as SD.
  destruct (span_digits r1) as [[|d ds] t]; simpl in *; lia. }
destruct r as [|c1 r']; [simpl; lia|].
destruct (_ || _); [apply (G [c1] r') | apply (G [] (c1 :: r'))]; simpl; lia.
Qed.

Lemma match_number_shrinks s v r :
  match_number s = Some (v, r) -> (length r < length s)%nat.
Proof.
unfold match_number. destruct (match_integer s) as [[i s1]|] eqn:I; [|discriminate].
apply match_integer_shrinks in I.
pose proof (match_frac_length s1) as F. destruct (match_frac s1) as [frac s2].
pose proof (match_exp_length s2) as X. destruct (match_exp s2) as [exp s3].
simpl in *. intros H.
assert (r = s3) as -> by (destruct frac, exp; injection H; auto).
lia.
Qed.

Lemma after_prefix_length p : forall s r,
  after_prefix p s = Some r -> (length s = length p + length r)%nat.
Proof.
induction p as [|x p IH]; intros [|y s] r H; simpl in *;
  try discriminate; try (injection H as <-; reflexivity).
destruct (x =? y); [|discriminate]. apply IH in H. lia.
Qed.

(** *** The loops never run out of fuel *)

Section Loops.

Variable scan : pystr -> result (pyval * pystr).
Hypothesis scan_shrinks :
  forall s v r, scan s = Ok (v, r) -> (length r < length s)%nat.

Lemma scan_value_shrinks s v r :
  scan_value scan s = Ok (v, r) -> (length r < length s)%nat.
Proof.
unfold scan_value. destruct (scan s) as [[v' r']|e] eqn:E.
- intros H. injection H as _ <-. eapply scan_shrinks; eauto.
- destruct (exn_cls e); discriminate.
Qed.

Lemma object_loop_shrinks fuel : forall s pairs v r,
  object_loop scan fuel s pairs = Ok (v, r) -> (length r < length s)%nat.
Proof.
induction fuel as [|fuel IH]; intros s pairs v r H; [discriminate|].
cbn [object_loop] in H.
destruct (scanstring s) as [[key s1]|] eqn:K; [|discriminate].
apply scanstring_shrinks in K. cbn [bind] in H.
destruct (_w s1) as [|c s2] eqn:W1; [discriminate|]. apply _w_cons_length in W1.
destruct (c =? ord ":"); [|discriminate].
pose proof (_w_length s2) as W2.
destruct (scan_value scan (_w s2)) as [[value s3]|] eqn:V; [|discriminate].
apply scan_value_shrinks in V. cbn [bind] in H.
destruct (_w s3) as [|c' s4] eqn:W3; [discriminate|]. apply _w_cons_length in W3.
destruct (c' =? ord "}"); [injection H as _ <-; lia|].
destruct (c' =? ord ","); [|discriminate].
destruct (_w s4) as [|q s5] eqn:W4; [discriminate|]. apply _w_cons_length in W4.
destruct (q =? quote); [|discriminate].
apply IH in H. lia.
Qed.

(** Fuel above the length of the text is as good as any other. *)
Lemma object_loop_fuel fuel : forall fuel' s pairs,
  (length s < fuel)%nat -> (length s < fuel')%nat ->
  object_loop scan fuel s pairs = object_loop scan fuel' s pairs.
Proof.
induction fuel as [|fuel IH]; intros [|fuel'] s pairs L L'; try lia.
cbn [object_loop].
destruct (scanstring s) as [[key s1]|] eqn:K; [|reflexivity].
apply scanstring_shrinks in K. cbn [bind].
destruct (_w s1) as [|c s2] eqn:W1; [reflexivity|]. apply _w_cons_length in W1.
destruct (c =? ord ":"); [|reflexivity].
pose proof (_w_length s2) as W2.
destruct (scan_value scan (_w s2)) as [[value s3]|] eqn:V; [|reflexivity].
apply scan_value_shrinks in V. cbn [bind].
destruct (_w s3) as [|c' s4] eqn:W3; [reflexivity|]. apply _w_cons_length in W3.
destruct (c' =? ord "}"); [reflexivity|].
destruct (c' =? ord ","); [|reflexivity].
destruct (_w s4) as [|q s5] eqn:W4; [reflexivity|]. apply _w_cons_length in W4.
destruct (q =? quote); [|reflexivity].
apply IH; lia.
Qed.

Lemma array_loop_shrinks fuel : forall s values v r,
  array_loop scan fuel s values = Ok (v, r) -> (length r < length s)%nat.
Proof.
induction fuel as [|fuel IH]; intros s values v r H; [discriminate|].
cbn [array_loop] in H.
destruct (scan_value scan s) as [[value s1]|] eqn:V; [|discriminate].
apply scan_value_shrinks in V. cbn [bind] in H.
destruct (_w s1) as [|c s2] eqn:W1; [discriminate|]. apply _w_cons_length in W1.
destruct (c =? ord "]"); [injection H as _ <-; lia|].
destruct (c =? ord ","); [|discriminate].
apply IH in H. pose proof (_w_length s2). lia.
Qed.

Lemma array_loop_fuel fuel : forall fuel' s values,
  (length s < fuel)%nat -> (length s < fuel')%nat ->
  array_loop scan fuel s values = array_loop scan fuel' s values.
Proof.
induction fuel as [|fuel IH]; intros [|fuel'] s values L L'; try lia.
cbn [array_loop].
destruct (scan_value scan s) as [[value s1]|] eqn:V; [|reflexivity].
apply scan_value_shrinks in V. cbn [bind].
destruct (_w s1) as [|c s2] eqn:W1; [reflexivity|]. apply _w_cons_length in W1.
destruct (c =? ord "]"); [reflexivity|].
destruct (c =? ord ","); [|reflexivity].
pose proof (_w_length s2). apply IH; lia.
Qed.

Lemma JSONObject_shrinks s v r :
  JSONObject scan s = Ok (v, r) -> (length r < length s)%nat.
Proof.
unfold JSONObject. destruct (_w s) as [|c s1] eqn:W; [discriminate|].
apply _w_cons_length in W.
destruct (c =? ord "}"); [intros H; injection H as _ <-; lia|].
destruct (c =? quote); [|discriminate].
intros H. apply object_loop_shrinks in H. lia.
Qed.

Lemma JSONArray_shrinks s v r :
  JSONArray scan s = Ok (v, r) -> (length r < length s)%nat.
Proof.
unfold JSONArray. destruct (_w s) as [|c s1] eqn:W; [discriminate|].
pose proof (_w_length s) as L. rewrite W in L.
destruct (c =? ord "]"); [intros H; injection H as _ <-; simpl in L; lia|].
intros H. apply array_loop_shrinks in H. lia.
Qed.

End Loops.

(** [scan_once] reads at least one character. *)
Lemma scan_once_shrinks depth : forall s v r,
  scan_once depth s = Ok (v, r) -> (length r < length s)%nat.
Proof.
induction depth as [|depth IH]; intros [|c rest] v r H; try discriminate;
  cbn [scan_once] in H.
all: destruct (c =? quote);
  [ destruct (scanstring rest) as [[x y]|] eqn:K; [|discriminate];
    apply scanstring_shrinks in K; cbn [bind] in H; injection H as _ <-;
    simpl; lia |].
all: destruct (c =? ord "{");
  [ try discriminate;
    try (apply (JSONObject_shrinks _ IH) in H; simpl; lia) |].
all: destruct (c =? ord "[");
  [ try discriminate;
    try (apply (JSONArray_shrinks _ IH) in H; simpl; lia) |].
all: repeat match type of H with
       | context [match after_prefix ?p ?s with _ => _ end] =>
           let A := fresh "A" in
           destruct (after_prefix p s) eqn:A;
           [ apply after_prefix_length in A; injection H as _ <-;
             simpl in *; lia |]
       | context [match match_number ?s with _ => _ end] =>
           let M := fresh "M" in
           destruct (match_number s) as [[[?|?] ?]|] eqn:M;
           [ apply match_number_shrinks in M; cbn [bind] in H;
             injection H as _ <-; simpl in *; lia
           | discriminate |]
       end; discriminate.
Qed.

End JsonFuel.

(** The fuel that [JSONObject] and [JSONArray] give their loops is never
    used up: more fuel changes nothing. *)
Lemma JSONObject_loop_fuel (depth extra : nat) (s : pystr) (pairs : list (pystr * pyval)) :
  Json.object_loop (Json.scan_once depth) (S (length s)) s pairs
  = Json.object_loop (Json.scan_once depth) (S (length s) + extra) s pairs.
Proof. apply object_loop_fuel; [apply scan_once_shrinks | lia | lia]. Qed.

Lemma JSONArray_loop_fuel (depth extra : nat) (s : pystr) (values : list pyval) :
  Json.array_loop (Json.scan_once depth) (S (length s)) s values
  = Json.array_loop (Json.scan_once depth) (S (length s) + extra) s values.
Proof. apply array_loop_fuel; [apply scan_once_shrinks | lia | lia]. Qed.

Section DifflibFuel.

Import Difflib DifflibBounds.

Variables a b : pystr.

Lemma j2len_get_within alo blo i j2len j :
  lengths_within alo blo i j2len ->
  j2len_get j2len j <= i - alo /\ j2len_get j2len j <= j + 1 - blo.
Proof.
unfold lengths_within. induction 1 as [|[j' k] m [H1 H2] _ IH]; simpl; [lia|].
destruct (j' =? j) eqn:E; [|exact IH].
apply Nat.eqb_eq in E. subst. simpl in *. lia.
Qed.

Lemma scan_js_within alo js : forall i blo bhi j2len newj2len best,
  alo <= i ->
  lengths_within alo blo i j2len ->
  lengths_within alo blo (S i) newj2len ->
  within alo blo bhi (S i) best ->
  let '(newj2len', best') := scan_js js i blo bhi j2len newj2len best in
  lengths_within alo blo (S i) newj2len' /\ within alo blo bhi (S i) best'.
Proof.
induction js as [|j js IH]; intros i blo bhi j2len newj2len best Hi Hl Hn Hb;
  cbn [scan_js]; [auto|].
destruct (j <? blo) eqn:E1; [now apply IH|].
destruct (bhi <=? j) eqn:E2; [auto|].
apply Nat.ltb_ge in E1. apply Nat.leb_gt in E2.
set (k := match j with O => 0 | S j' => j2len_get j2len j' end + 1).
assert (Hk : k <= S i - alo /\ k <= j + 1 - blo).
{ subst k. destruct j as [|j'].
  - lia.
  - destruct (j2len_get_within alo blo i j2len j' Hl). lia. }
clearbody k. destruct best as [[bi bj] bk].
apply IH; try assumption.
- constructor; [exact Hk | exact Hn].
- destruct (bk <? k); [|exact Hb]. simpl. lia.
Qed.

Lemma scan_is_within alo n : forall i blo bhi j2len best,
  alo <= i ->
  lengths_within alo blo i j2len ->
  within alo blo bhi i best ->
  within alo blo bhi (i + n) (scan_is a b n i blo bhi j2len best).
Proof.
induction n as [|n IH]; intros i blo bhi j2len best Hi Hl Hb; cbn [scan_is].
- now rewrite Nat.add_0_r.
- pose proof (scan_js_within alo
                (match nth_error a i with Some x => b2j_get b x | None => [] end)
                i blo bhi j2len [] best Hi Hl) as H.
  destruct (scan_js _ i blo bhi j2len [] best) as [newj2len best'].
  destruct H as [Hl' Hb'].
  + constructor.
  + destruct best as [[bi bj] bk]. simpl in *. lia.
  + replace (i + S n) with (S i + n) by lia. apply IH; [lia | |assumption].
    eapply Forall_impl; [|exact Hl']. simpl. intros jk. lia.
Qed.

Lemma extend_left_within alo blo besti : forall bestj bestsize,
  alo <= besti -> blo <= bestj ->
  let '(i, j, k) := extend_left a b alo blo besti bestj bestsize in
  alo <= i /\ blo <= j /\ i + k = besti + bestsize /\ j + k = bestj + bestsize.
Proof.
induction besti as [|i' IH]; intros bestj bestsize Hi Hj; cbn [extend_left].
- destruct bestj; lia.
- destruct bestj as [|j']; [lia|].
  destruct ((alo <? S i') && (blo <? S j') && same_elt a b i' j') eqn:E; [|lia].
  rewrite !andb_true_iff, !Nat.ltb_lt in E.
  specialize (IH j' (S bestsize) ltac:(lia) ltac:(lia)).
  destruct (extend_left a b alo blo i' j' (S bestsize)) as [[i j] k]. lia.
Qed.

Lemma extend_right_within n ahi bhi besti bestj : forall bestsize,
  besti + bestsize <= ahi -> bestj + bestsize <= bhi ->
  let k := extend_right a b n ahi bhi besti bestj bestsize in
  bestsize <= k /\ besti + k <= ahi /\ bestj + k <= bhi.
Proof.
induction n as [|n IH]; intros bestsize Hi Hj; cbn [extend_right]; [lia|].
destruct ((besti + bestsize <? ahi) && (bestj + bestsize <? bhi)
          && same_elt a b (besti + bestsize) (bestj + bestsize)) eqn:E; [|lia].
rewrite !andb_true_iff, !Nat.ltb_lt in E.
specialize (IH (S bestsize) ltac:(lia) ltac:(lia)). cbv zeta in IH. lia.
Qed.

(** The longest match lies within the blocks it was looked for in. *)
Lemma find_longest_match_within alo ahi blo bhi :
  alo <= ahi -> blo <= bhi ->
  let '(i, j, k) := find_longest_match a b alo ahi blo bhi in
  alo <= i /\ i + k <= ahi /\ blo <= j /\ j + k <= bhi.
Proof.
intros Ha Hb. unfold find_longest_match.
pose proof (scan_is_within alo (ahi - alo) alo blo bhi [] (alo, blo, 0)
              (Nat.le_refl _)) as H.
replace (alo + (ahi - alo)) with ahi in H by lia.
destruct (scan_is a b (ahi - alo) alo blo bhi [] (alo, blo, 0)) as [[i1 j1] k1].
destruct H as (H1 & H2 & H3 & H4); [constructor | simpl; lia |].
pose proof (extend_left_within alo blo i1 j1 k1 H1 H3) as L.
destruct (extend_left a b alo blo i1 j1 k1) as [[i2 j2] k2].
destruct L as (L1 & L2 & L3 & L4).
pose proof (extend_right_within (ahi - (i2 + k2)) ahi bhi i2 j2 k2) as R.
cbv zeta in R. lia.
Qed.

(** The loop of [get_matching_blocks] ends before its fuel does: any
    fuel above the weight of the queue gives the same blocks. *)
Lemma blocks_loop_fuel fuel : forall fuel' queue blocks,
  Forall well_formed queue ->
  weight queue <= fuel -> weight queue <= fuel' ->
  blocks_loop a b fuel queue blocks = blocks_loop a b fuel' queue blocks.
Proof.
induction fuel as [|fuel IH]; intros fuel' queue blocks W L L'.
- destruct queue as [|[[[alo ahi] blo] bhi] queue]; [|simpl in L; lia].
  destruct fuel'; reflexivity.
- destruct queue as [|[[[alo ahi] blo] bhi] queue]; [destruct fuel'; reflexivity|].
  destruct fuel' as [|fuel']; [simpl in L'; lia|].
  cbn [blocks_loop]. inversion W as [|q qs Hq W']; subst.
  simpl in Hq. destruct Hq as [Ha Hb].
  pose proof (find_longest_match_within alo ahi blo bhi Ha Hb) as B.
  destruct (find_longest_match a b alo ahi blo bhi) as [[i j] k].
  destruct B as (B1 & B2 & B3 & B4). simpl in L, L'.
  destruct (k =? 0) eqn:K; [apply IH; [assumption | lia | lia]|].
  apply Nat.eqb_neq in K.
  destruct ((alo <? i) && (blo <? j)) eqn:E1;
    destruct ((i + k <? ahi) && (j + k <? bhi)) eqn:E2;
    rewrite ?andb_true_iff, ?Nat.ltb_lt in *;
    apply IH; repeat constructor; simpl; try assumption; lia.
Qed.

Lemma get_matching_blocks_fuel extra :
  blocks_loop a b (S (2 * length a)) [(0, length a, 0, length b)] []
  = blocks_loop a b (S (2 * length a) + extra) [(0, length a, 0, length b)] [].
Proof.
apply blocks_loop_fuel; [repeat constructor; lia | simpl; lia | simpl; lia].
Qed.

End DifflibFuel.

(* ================================================================== *)
(** * Merge/Defaulting *)
(* ================================================================== *)

Section Defaulting.

Implicit Types (d : dict) (k f : pystr) (v : pyval).

Lemma setdefault_present d k v : dict_get d k <> None -> setdefault d k v = d.
Proof. unfold setdefault. destruct (dict_get d k); congruence. Qed.

Lemma setdefault_keeps d k v k' v' :
  dict_get d k' = Some v' -> dict_get (setdefault d k v) k' = Some v'.
Proof.
  intros H. unfold setdefault. destruct (dict_get d k); [assumption|].
  now rewrite dict_get_app, H.
Qed.

Lemma setdefault_other d k v k' :
  k <> k' -> dict_get (setdefault d k v) k' = dict_get d k'.
Proof.
  intros H. unfold setdefault. destruct (dict_get d k); [reflexivity|].
  rewrite dict_get_app. destruct (dict_get d k'); [reflexivity|].
  simpl. apply str_eqb_neq in H. now rewrite H.
Qed.

Lemma setdefault_absent d k v :
  dict_get d k = None -> dict_get (setdefault d k v) k = Some v.
Proof.
  intros H. unfold setdefault. rewrite H, dict_get_app, H. simpl.
  now rewrite str_eqb_refl.
Qed.

Lemma fill_keeps ks d k v :
  dict_get d k = Some v -> dict_get (fill ks d) k = Some v.
Proof.
  revert d; induction ks as [|k0 ks IH]; intros d H; simpl; [assumption|].
  apply IH. now apply setdefault_keeps.
Qed.

Lemma fill_absent ks d f :
  In f ks -> dict_get d f = None -> dict_get (fill ks d) f = Some Unknown.
Proof.
  revert d; induction ks as [|k0 ks IH]; intros d Hin Hd; simpl; [contradiction|].
  destruct (str_eqb k0 f) eqn:E.
  - apply str_eqb_eq in E. subst k0.
    apply fill_keeps. now apply setdefault_absent.
  - apply str_eqb_neq in E. destruct Hin as [?|Hin]; [congruence|].
    apply IH; [assumption|]. now rewrite setdefault_other.
Qed.

Lemma fill_present ks d f : In f ks -> dict_get (fill ks d) f <> None.
Proof.
  intros Hin. destruct (dict_get d f) as [v|] eqn:E.
  - now rewrite (fill_keeps ks _ _ _ E).
  - now rewrite (fill_absent _ _ _ Hin E).
Qed.

Lemma fill_fixpoint ks d :
  (forall f, In f ks -> dict_get d f <> None) -> fill ks d = d.
Proof.
  induction ks as [|k0 ks IH]; intros H; simpl; [reflexivity|].
  rewrite setdefault_present by (apply H; now left).
  apply IH. intros f Hf. apply H. now right.
Qed.

(** The entries of the input stay where they are; what is added comes
    after them, and is a schema field with the sentinel. *)
Lemma fill_extends ks d :
  exists added,
    fill ks d = d ++ added /\
    Forall (fun kv => In (fst kv) ks /\ snd kv = Unknown) added.
Proof.
  revert d; induction ks as [|k0 ks IH]; intros d; simpl.
  - exists []. now rewrite List.app_nil_r.
  - assert (W : forall added,
               Forall (fun kv => In (fst kv) ks /\ snd kv = Unknown) added ->
               Forall (fun kv => In (fst kv) (k0 :: ks) /\ snd kv = Unknown) added).
    { intros added F. eapply Forall_impl; [|exact F]. simpl. intros kv [? ?]. auto. }
    unfold setdefault. destruct (dict_get d k0).
    + destruct (IH d) as (added & E & F). exists added. auto.
    + destruct (IH (d ++ [(k0, Unknown)])) as (added & E & F).
      exists ((k0, Unknown) :: added). rewrite E, <- List.app_assoc.
      split; [reflexivity|]. constructor; [simpl; auto | auto].
Qed.

End Defaulting.

Lemma fill_other (ks : list pystr) (d : dict) (k : pystr) :
  ~ In k ks -> dict_get (fill ks d) k = dict_get d k.
Proof.
  revert d; induction ks as [|k0 ks IH]; intros d H; simpl; [reflexivity|].
  unfold fill in *. simpl. rewrite IH by (intros ?; apply H; now right).
  apply setdefault_other. intros ->. apply H. now left.
Qed.

Lemma keys_defaulting_nil : keys (defaulting []) = AI_FIELDS.
Proof. vm_compute. reflexivity. Qed.

(** C5. For every record, the Merge/Defaulting step gives a record in
    which every name of [AI_FIELDS] is a key; a key of the input keeps the
    value it has, whatever its type (a list included), and a field of
    [AI_FIELDS] that is absent gets the sentinel ["Unknown"]. *)
Theorem defaulting_complete (r : dict) :
  (forall f, In f AI_FIELDS -> In f (keys (defaulting r))) /\
  (forall k v, dict_get r k = Some v -> dict_get (defaulting r) k = Some v) /\
  (forall f, In f AI_FIELDS -> dict_get r f = None ->
             dict_get (defaulting r) f = Some Unknown).
Proof.
  unfold defaulting. split; [|split].
  - intros f Hf. apply dict_get_In_keys. now apply fill_present.
  - intros k v. apply fill_keeps.
  - intros f. apply fill_absent.
Qed.

(** C6. The Merge/Defaulting step is idempotent. *)
Theorem defaulting_idempotent (r : dict) :
  defaulting (defaulting r) = defaulting r.
Proof.
  unfold defaulting. apply fill_fixpoint.
  intros f Hf. now apply fill_present.
Qed.

(** C10. When the parsed reply of the model is a record, the record that
    [summarize_project_with_gpt] returns keeps every entry of it: a key
    outside [AI_FIELDS] is in the result exactly when it is in the reply,
    with the same value, so the result may have fields beyond the
    schema. *)
Theorem extra_keys_preserved
        (limit : nat) (create : ChatRequest -> result ChatResponse)
        (full_text : pystr) (reply : dict) :
  request_summary limit create full_text = Ok (PDict reply) ->
  exists record,
    returned (summarize_project_with_gpt limit create full_text)
      = Ok (PDict record) /\
    (forall k v, dict_get reply k = Some v -> dict_get record k = Some v) /\
    (forall k, ~ In k AI_FIELDS -> dict_get record k = dict_get reply k).
Proof.
  intros H. unfold summarize_project_with_gpt. rewrite H.
  exists (defaulting reply). split; [reflexivity|]. split.
  - intros k v. apply fill_keeps.
  - intros k. apply fill_other.
Qed.

Lemma extra_keys_preserved_witness :
  exists record,
    returned (summarize_project_with_gpt
                10 (fun _ => Ok [Some (str "{" ++ DQ ++ str "Team size" ++ DQ ++ str ": 4}")]) [])
      = Ok (PDict record) /\
    (forall k v, dict_get [(str "Team size", PInt 4)] k = Some v ->
                 dict_get record k = Some v) /\
    (forall k, ~ In k AI_FIELDS ->
               dict_get record k = dict_get [(str "Team size", PInt 4)] k).
Proof.
  apply (extra_keys_preserved
           10 (fun _ => Ok [Some (str "{" ++ DQ ++ str "Team size" ++ DQ ++ str ": 4}")]) []
           [(str "Team size", PInt 4)]).
  vm_compute. reflexivity.
Defined.

(** C2. If the request to the generation backend raises an exception
    (a class derived from [Exception]: network, authentication, quota,
    timeout), [summarize_project_with_gpt] shows the error with
    [st.error], raises nothing, and returns a record whose keys are the
    names of [AI_FIELDS], each with the value ["Unknown"]. *)
Theorem summarize_backend_failure
        (limit : nat) (create : ChatRequest -> result ChatResponse)
        (full_text : pystr) (e : exn) :
  create (chat_request full_text) = Raise e ->
  is_Exception e = true ->
  let out := summarize_project_with_gpt limit create full_text in
  shown out = [str "OpenAI API error: " ++ exn_msg e] /\
  exists record,
    returned out = Ok (PDict record) /\
    keys record = AI_FIELDS /\
    forall f, In f AI_FIELDS -> dict_get record f = Some Unknown.
Proof.
  intros Hc He. unfold summarize_project_with_gpt, request_summary.
  rewrite Hc. simpl. rewrite He. simpl. split; [reflexivity|].
  exists (defaulting []). split; [reflexivity|]. split.
  - exact keys_defaulting_nil.
  - intros f Hf. now apply fill_absent.
Qed.

Lemma summarize_backend_failure_witness :
  let timeout := mk_exn (OtherException "Timeout") (str "Request timed out") in
  let out := summarize_project_with_gpt 10 (fun _ => Raise timeout) (str "pitch") in
  shown out = [str "OpenAI API error: " ++ exn_msg timeout] /\
  exists record,
    returned out = Ok (PDict record) /\
    keys record = AI_FIELDS /\
    forall f, In f AI_FIELDS -> dict_get record f = Some Unknown.
Proof.
  intros timeout.
  apply (summarize_backend_failure 10 (fun _ => Raise timeout) (str "pitch") timeout);
    reflexivity.
Defined.

(** C8. [extract_text_from_file] returns the empty string for an
    extension it does not support; for [.xls] and [.xlsx] it never raises,
    and a failure of the spreadsheet reader gives the empty string; for
    [.pdf], [.docx] and [.pptx] the exception of the reader reaches the
    caller. *)
Theorem extract_text_error_policy
        (suffix_lower : pystr -> pystr)
        (fitz_pages docx_paragraphs : pystr -> result (list pystr))
        (pptx_shapes : pystr -> result (list (list (option pystr))))
        (read_excel_to_csv : pystr -> result pystr)
        (path : pystr) :
  let ext := suffix_lower path in
  let out := extract_text_from_file suffix_lower fitz_pages docx_paragraphs
                                    pptx_shapes read_excel_to_csv path in
  (~ In ext (map str [".pdf"; ".docx"; ".pptx"; ".xls"; ".xlsx"]%string) ->
   out = Ok []) /\
  (In ext (map str [".xls"; ".xlsx"]%string) ->
   (exists text, out = Ok text) /\
   (forall e, read_excel_to_csv path = Raise e -> out = Ok [])) /\
  (ext = str ".pdf" -> forall e, fitz_pages path = Raise e -> out = Raise e) /\
  (ext = str ".docx" -> forall e, docx_paragraphs path = Raise e -> out = Raise e) /\
  (ext = str ".pptx" -> forall e, pptx_shapes path = Raise e -> out = Raise e).
Proof.
  intros ext out. subst out. unfold extract_text_from_file, extract_text_from_pdf.
  fold ext. split; [|split; [intros H; split|split; [|split]]].
  - intros H.
    destruct (str_eqb ext (str ".pdf")) eqn:E1.
    { exfalso. apply H. apply str_eqb_eq in E1. rewrite E1.
      apply mem_In. reflexivity. }
    destruct (str_eqb ext (str ".docx")) eqn:E2.
    { exfalso. apply H. apply str_eqb_eq in E2. rewrite E2.
      apply mem_In. reflexivity. }
    destruct (str_eqb ext (str ".pptx")) eqn:E3.
    { exfalso. apply H. apply str_eqb_eq in E3. rewrite E3.
      apply mem_In. reflexivity. }
    destruct (mem ext [str ".xls"; str ".xlsx"]) eqn:E4; [|reflexivity].
    exfalso. apply H. apply mem_In in E4.
    destruct E4 as [<-|[<-|[]]]; apply mem_In; reflexivity.
  - simpl in H. destruct H as [<-|[<-|[]]]; simpl;
      destruct (read_excel_to_csv path); eauto.
  - intros e He. simpl in H. destruct H as [<-|[<-|[]]]; simpl; now rewrite He.
  - intros -> e He. simpl. now rewrite He.
  - intros -> e He. simpl. now rewrite He.
  - intros -> e He. simpl. now rewrite He.
Qed.

Lemma extract_text_error_policy_witness :
  let corrupt := mk_exn (OtherException "BadZipFile") (str "File is not a zip file") in
  let read := fun _ : pystr => @Raise (list pystr) corrupt in
  extract_text_from_file (fun _ => str ".xlsx") read read
                         (fun _ => Raise corrupt) (fun _ => Raise corrupt)
                         (str "deck.XLSX") = Ok [] /\
  extract_text_from_file (fun _ => str ".pdf") read read
                         (fun _ => Raise corrupt) (fun _ => Raise corrupt)
                         (str "deck.pdf") = Raise corrupt /\
  extract_text_from_file (fun _ => str ".txt") read read
                         (fun _ => Raise corrupt) (fun _ => Raise corrupt)
                         (str "notes.txt") = Ok [].
Proof.
  intros corrupt read. split; [|split].
  - destruct (extract_text_error_policy (fun _ => str ".xlsx") read read
                (fun _ => Raise corrupt) (fun _ => Raise corrupt) (str "deck.XLSX"))
      as (_ & Hx & _).
    apply Hx with (e := corrupt); [apply mem_In|]; reflexivity.
  - destruct (extract_text_error_policy (fun _ => str ".pdf") read read
                (fun _ => Raise corrupt) (fun _ => Raise corrupt) (str "deck.pdf"))
      as (_ & _ & Hp & _).
    apply Hp; reflexivity.
  - destruct (extract_text_error_policy (fun _ => str ".txt") read read
                (fun _ => Raise corrupt) (fun _ => Raise corrupt) (str "notes.txt"))
      as (Hu & _).
    apply Hu. intros Hin. apply mem_In in Hin. discriminate Hin.
Defined.

(* ================================================================== *)
(** * The Controlled-Vocabulary Matcher *)
(* ================================================================== *)

Section MatcherFacts.

Import Difflib.

Lemma max_scored_In (p : Q * pystr) (l : list (Q * pystr)) :
  In (max_scored p l) (p :: l).
Proof.
  revert p; induction l as [|q l IH]; intros p; simpl; [auto|].
  destruct (IH (if scored_gtb q p then q else p)) as [E|H].
  - destruct (scored_gtb q p); rewrite <- E; auto.
  - auto.
Qed.

Lemma close_enough_In cutoff word possibilities p :
  In p (close_enough cutoff word possibilities) -> In (snd p) possibilities.
Proof.
  unfold close_enough. rewrite in_flat_map. intros (x & Hx & Hp).
  destruct (_ && _) in Hp; [|contradiction].
  destruct Hp as [<-|[]]. exact Hx.
Qed.

(** [get_close_matches] only returns possibilities. *)
Lemma get_close_matches_1_In word possibilities cutoff c :
  In c (get_close_matches_1 word possibilities cutoff) -> In c possibilities.
Proof.
  unfold get_close_matches_1.
  destruct (close_enough cutoff word possibilities) as [|p r] eqn:E; [contradiction|].
  intros [<-|[]]. apply close_enough_In with cutoff word. rewrite E.
  apply max_scored_In.
Qed.

Lemma get_close_matches_1_shape word possibilities cutoff :
  get_close_matches_1 word possibilities cutoff = [] \/
  exists c, get_close_matches_1 word possibilities cutoff = [c].
Proof.
  unfold get_close_matches_1.
  destruct (close_enough cutoff word possibilities); eauto.
Qed.

(** One turn of the loop leaves [matched] as it is, or adds to it the
    closest label of the candidate, a label that is not yet there. *)
Lemma match_step_cases matched s :
  (match_step matched s = matched /\
   forall c, In c (closest_labels [s]) -> In c matched) \/
  (exists c, match_step matched s = matched ++ [c] /\
             closest_labels [s] = [c] /\
             ~ In c matched /\ In c SDG_OPTIONS).
Proof.
  unfold match_step, closest_labels. simpl. rewrite List.app_nil_r.
  pose proof (get_close_matches_1_In s SDG_OPTIONS (6 # 10)) as Hin.
  destruct (get_close_matches_1_shape s SDG_OPTIONS (6 # 10)) as [E|[c E]];
    rewrite E in *.
  - left. split; [reflexivity | intros c []].
  - destruct (mem c matched) eqn:M; simpl.
    + left. apply mem_In in M. split; [reflexivity|].
      intros c' [<-|[]]. exact M.
    + right. exists c. apply mem_not_In in M.
      split; [reflexivity|]. split; [reflexivity|]. split; [exact M|].
      apply Hin. now left.
Qed.

Lemma Subseq_app_skip {A} (p l m : list A) : Subseq l m -> Subseq l (p ++ m).
Proof. induction p; simpl; [auto | intros; constructor; auto]. Qed.

Lemma closest_labels_cons s rest :
  closest_labels (s :: rest) = closest_labels [s] ++ closest_labels rest.
Proof. unfold closest_labels. simpl. now rewrite List.app_nil_r. Qed.

(** What the loop adds to [matched]. *)
Lemma match_loop_spec raw_list : forall matched,
  exists added,
    match_loop raw_list matched = matched ++ added /\
    Subseq added (closest_labels raw_list) /\
    (forall x, In x added -> In x SDG_OPTIONS) /\
    (NoDup matched -> NoDup (matched ++ added)) /\
    (length matched <= 2 -> length (matched ++ added) <= 3).
Proof.
  induction raw_list as [|s rest IH]; intros matched.
  - exists []. simpl. rewrite List.app_nil_r.
    repeat (split; [now (auto || constructor || (intros; lia)) |]).
    intros; lia.
  - rewrite closest_labels_cons. cbn [match_loop].
    destruct (match_step_cases matched s) as [[E Hc]|(c & E & Ec & Hn & Hs)];
      rewrite E.
    + destruct (3 <=? length matched)%nat eqn:L.
      * exists []. rewrite List.app_nil_r.
        split; [reflexivity|]. split; [constructor|].
        split; [intros x []|]. split; [auto|].
        apply Nat.leb_le in L. intros; lia.
      * destruct (IH matched) as (added & E' & S' & I' & N' & L').
        exists added. split; [exact E'|].
        split; [now apply Subseq_app_skip|]. auto.
    + rewrite Ec. change ([c] ++ closest_labels rest) with (c :: closest_labels rest).
      assert (ND : NoDup matched -> NoDup (matched ++ [c])).
      { intros ND. apply NoDup_app; [exact ND | repeat constructor; auto |].
        intros x Hx [<-|[]]. contradiction. }
      destruct (3 <=? length (matched ++ [c]))%nat eqn:L.
      * exists [c]. split; [reflexivity|]. split; [repeat constructor|].
        split; [intros x [<-|[]]; exact Hs|]. split; [exact ND|].
        rewrite length_app. simpl. intros; lia.
      * destruct (IH (matched ++ [c])) as (added & E' & S' & I' & N' & L').
        apply Nat.leb_gt in L.
        exists (c :: added). rewrite <- List.app_assoc in E', N', L'.
        split; [exact E'|]. split; [now constructor|].
        split; [intros x [<-|Hx]; auto|]. split; [auto|].
        intros _. apply L'. lia.
Qed.

Lemma match_loop_keeps raw_list matched x :
  In x matched -> In x (match_loop raw_list matched).
Proof.
  intros H. destruct (match_loop_spec raw_list matched) as (added & E & _).
  rewrite E. apply in_or_app. now left.
Qed.

(** The loop over a list in two parts: when the first part ends below
    three labels, the second part goes on from there. *)
Lemma match_loop_app pre rest : forall matched,
  length (match_loop pre matched) < 3 ->
  match_loop (pre ++ rest) matched = match_loop rest (match_loop pre matched).
Proof.
  induction pre as [|s pre IH]; intros matched H; [reflexivity|].
  cbn [match_loop app] in *.
  destruct (3 <=? length (match_step matched s))%nat eqn:L.
  - apply Nat.leb_le in L. lia.
  - now apply IH.
Qed.

(** A canonical label is its own closest label. *)
Lemma exact_label_closest label :
  In label SDG_OPTIONS ->
  get_close_matches_1 label SDG_OPTIONS (6 # 10) = [label].
Proof.
  unfold SDG_OPTIONS at 1. simpl.
  intros H.
  repeat (destruct H as [<-|H]; [vm_compute; reflexivity|]).
  contradiction.
Qed.

End MatcherFacts.

(** C4. For every list of candidates, [_match_sdgs] returns at most three
    labels, without a duplicate, each a label of [SDG_OPTIONS], in the
    order of the candidates they are the closest labels of; for the empty
    list it returns the empty list. *)
Theorem match_sdgs_invariants (raw_list : list pystr) :
  length (_match_sdgs raw_list) <= 3 /\
  NoDup (_match_sdgs raw_list) /\
  (forall x, In x (_match_sdgs raw_list) -> In x SDG_OPTIONS) /\
  Subseq (_match_sdgs raw_list) (closest_labels raw_list) /\
  _match_sdgs [] = [].
Proof.
  unfold _match_sdgs.
  destruct (match_loop_spec raw_list []) as (added & E & S & I & N & L).
  rewrite E. simpl in *.
  split; [apply L; lia|]. split; [apply N; constructor|].
  split; [exact I|]. split; [exact S | reflexivity].
Qed.

(** C9. A canonical label has similarity 1 with itself; when a candidate
    is a canonical label and fewer than three labels are matched by the
    candidates before it, the output of [_match_sdgs] has that label. *)
Theorem exact_label_is_matched (pre post : list pystr) (label : pystr) :
  In label SDG_OPTIONS ->
  length (_match_sdgs pre) < 3 ->
  (Difflib.ratio label label == 1)%Q /\
  In label (_match_sdgs (pre ++ label :: post)).
Proof.
  unfold _match_sdgs. intros Hl Hpre. split.
  { revert Hl. unfold SDG_OPTIONS. simpl. intros H.
    repeat (destruct H as [<-|H]; [vm_compute; reflexivity|]).
    contradiction. }
  rewrite match_loop_app by exact Hpre.
  set (matched := match_loop pre []) in *.
  cbn [match_loop]. unfold match_step.
  rewrite (exact_label_closest label Hl).
  assert (H : In label (if negb (mem label matched)
                        then matched ++ [label] else matched)).
  { destruct (mem label matched) eqn:M; simpl.
    - now apply mem_In.
    - apply in_or_app. right. now left. }
  destruct (3 <=? _)%nat; [exact H|]. now apply match_loop_keeps.
Qed.

Lemma exact_label_is_matched_witness :
  (Difflib.ratio (str "Climate action (SDG 13)") (str "Climate action (SDG 13)")
   == 1)%Q /\
  In (str "Climate action (SDG 13)")
     (_match_sdgs ([str "cheap loans"; str "Life on land (SDG 15)"]
                   ++ str "Climate action (SDG 13)" :: [str "Zero hunger (SDG 2)"])).
Proof.
  apply (exact_label_is_matched
           [str "cheap loans"; str "Life on land (SDG 15)"]
           [str "Zero hunger (SDG 2)"] (str "Climate action (SDG 13)")).
  - apply mem_In. vm_compute. reflexivity.
  - vm_compute. lia.
Defined.

(** C3, as the code has it. On the candidates ["clean energy"] and
    ["ending poverty"], [_match_sdgs] returns the empty list: the closest
    labels, "Affordable and clean energy (SDG 7)" and "No poverty (SDG 1)",
    have the ratios 24/47 and 16/32, both below the cutoff 0.6. *)
Theorem match_sdgs_scenario :
  _match_sdgs [str "clean energy"; str "ending poverty"] = [] /\
  (Difflib.ratio (str "Affordable and clean energy (SDG 7)") (str "clean energy")
   == 24 # 47)%Q /\
  (Difflib.ratio (str "No poverty (SDG 1)") (str "ending poverty") == 16 # 32)%Q /\
  (forall label, In label SDG_OPTIONS ->
     (Difflib.ratio label (str "clean energy") < 6 # 10)%Q /\
     (Difflib.ratio label (str "ending poverty") < 6 # 10)%Q).
Proof.
  split; [vm_compute; reflexivity|].
  split; [vm_compute; reflexivity|].
  split; [vm_compute; reflexivity|].
  unfold SDG_OPTIONS. simpl. intros label H.
  repeat (destruct H as [<-|H]; [split; vm_compute; reflexivity|]).
  contradiction.
Qed.

(** C3, as the specification has it, fails: the two labels are not
    returned. *)
Lemma match_sdgs_scenario_fails :
  _match_sdgs [str "clean energy"; str "ending poverty"]
  <> [str "Affordable and clean energy (SDG 7)"; str "No poverty (SDG 1)"].
Proof. vm_compute. discriminate. Qed.

(* ================================================================== *)
(** * The JSON Repair Parser *)
(* ================================================================== *)

Section JsonFacts.

Import Json JsonEncoder JsonText.
Local Open Scope N_scope.

(** *** Blanks *)

Lemma _w_solid s : starts_solid s -> _w s = s.
Proof. destruct s as [|c r]; simpl; [reflexivity | now intros ->]. Qed.

Lemma _w_blanks n s : _w (repeat 32 n ++ s) = _w s.
Proof. induction n; simpl; auto. Qed.

Lemma _w_newline_indent level s : _w (newline_indent level ++ s) = _w s.
Proof. unfold newline_indent. simpl. apply _w_blanks. Qed.

(** *** Strings *)

Lemma escape_Some_cases c e :
  escape c = Some e -> c < 32 \/ c = 34 \/ c = 92.
Proof.
  unfold escape, backslash, quote.
  destruct (c =? 92) eqn:E1; [apply N.eqb_eq in E1; auto|].
  destruct (c =? 34) eqn:E2; [apply N.eqb_eq in E2; auto|].
  destruct (c =? 8) eqn:E3; [apply N.eqb_eq in E3; subst; left; reflexivity|].
  destruct (c =? 12) eqn:E4; [apply N.eqb_eq in E4; subst; left; reflexivity|].
  destruct (c =? 10) eqn:E5; [apply N.eqb_eq in E5; subst; left; reflexivity|].
  destruct (c =? 13) eqn:E6; [apply N.eqb_eq in E6; subst; left; reflexivity|].
  destruct (c =? 9) eqn:E7; [apply N.eqb_eq in E7; subst; left; reflexivity|].
  destruct (c <? 32) eqn:E8; [apply N.ltb_lt in E8; auto | discriminate].
Qed.

Lemma small_cases c : c < 32 ->
  c = 0 \/ c = 1 \/ c = 2 \/ c = 3 \/ c = 4 \/ c = 5 \/ c = 6 \/ c = 7 \/
  c = 8 \/ c = 9 \/ c = 10 \/ c = 11 \/ c = 12 \/ c = 13 \/ c = 14 \/ c = 15 \/
  c = 16 \/ c = 17 \/ c = 18 \/ c = 19 \/ c = 20 \/ c = 21 \/ c = 22 \/ c = 23 \/
  c = 24 \/ c = 25 \/ c = 26 \/ c = 27 \/ c = 28 \/ c = 29 \/ c = 30 \/ c = 31.
Proof. lia. Qed.

(** An escape sequence of the encoder is read back as its character. *)
Lemma scanstring_escape c e s :
  escape c = Some e -> scanstring (e ++ s) = push c (scanstring s).
Proof.
  intros H. destruct (escape_Some_cases _ _ H) as [L | [-> | ->]].
  - apply small_cases in L.
    repeat (destruct L as [->|L];
            [injection H; intros <-; reflexivity|]).
    subst c. injection H; intros <-; reflexivity.
  - injection H; intros <-; reflexivity.
  - injection H; intros <-; reflexivity.
Qed.

Lemma scanstring_plain c s :
  escape c = None -> scanstring (c :: s) = push c (scanstring s).
Proof.
  unfold escape. cbn [scanstring].
  destruct (c =? backslash); [discriminate|].
  destruct (c =? quote); [discriminate|].
  destruct (c =? 8); [discriminate|].
  destruct (c =? 12); [discriminate|].
  destruct (c =? 10); [discriminate|].
  destruct (c =? 13); [discriminate|].
  destruct (c =? 9); [discriminate|].
  destruct (c <? 32); [discriminate|]. reflexivity.
Qed.

(** [scanstring] reads back what [encode_basestring] wrote. *)
Lemma scanstring_escape_all s rest :
  scanstring (escape_all s ++ quote :: rest) = Ok (s, rest).
Proof.
  induction s as [|c s IH]; [reflexivity|].
  cbn [escape_all]. destruct (escape c) as [e|] eqn:E.
  - rewrite <- List.app_assoc, (scanstring_escape _ _ _ E), IH. reflexivity.
  - cbn [app]. rewrite (scanstring_plain _ _ E), IH. reflexivity.
Qed.


(** *** Integers *)

Lemma to_uint_normal p : normal (Pos.to_uint p).
Proof.
  pose proof (DecimalPos.Unsigned.to_uint_nonnil p) as Hnil.
  pose proof (DecimalPos.Unsigned.to_uint_nonzero p) as Hzero.
  assert (E : Decimal.unorm (Pos.to_uint p) = Pos.to_uint p).
  { rewrite <- DecimalPos.Unsigned.to_of, DecimalPos.Unsigned.of_to. reflexivity. }
  destruct (Pos.to_uint p) as [|u|u|u|u|u|u|u|u|u|u] eqn:U; simpl; auto.
  exfalso. rewrite DecimalFacts.unorm_D0 in E.
  destruct (Decimal.nzhead u) eqn:NZ.
  1: { unfold Decimal.unorm in E. rewrite NZ in E. apply Hzero. now rewrite <- E. }
  all: rewrite DecimalFacts.unorm_nzhead in E by (rewrite NZ; discriminate);
    exact (DecimalFacts.nzhead_nonzero _ _ E).
Qed.

Lemma to_int_normal z :
  match Z.to_int z with
  | Decimal.Pos u | Decimal.Neg u => normal u
  end.
Proof. destruct z; simpl; auto using to_uint_normal. Qed.

Lemma uint_of_digits_of_uint u : uint_of_digits (digits_of_uint u) = u.
Proof.
  induction u; [reflexivity| ..];
    cbn [digits_of_uint uint_of_digits]; rewrite IHu; reflexivity.
Qed.

Lemma span_digits_of_uint u rest :
  ends_number rest ->
  span_digits (digits_of_uint u ++ rest) = (digits_of_uint u, rest).
Proof.
  intros H. induction u; cbn -[span_digits];
    try (cbn [span_digits]; change (is_digit _) with true; cbn iota;
         rewrite IHu; reflexivity).
  destruct rest as [|c r]; [reflexivity|]. simpl in H. cbn [span_digits].
  destruct H as [-> | ->]; reflexivity.
Qed.

Lemma match_frac_none rest : ends_number rest -> match_frac rest = ([], rest).
Proof.
  destruct rest as [|c r]; [reflexivity|]. simpl.
  intros [-> | ->]; reflexivity.
Qed.

Lemma match_exp_none rest : ends_number rest -> match_exp rest = ([], rest).
Proof.
  destruct rest as [|c r]; [reflexivity|]. simpl.
  intros [-> | ->]; reflexivity.
Qed.

Lemma match_integer_digits u rest :
  normal u -> ends_number rest ->
  match_integer (digits_of_uint u ++ rest) = Some (digits_of_uint u, rest) /\
  match_integer (45 :: digits_of_uint u ++ rest)
    = Some (45 :: digits_of_uint u, rest).
Proof.
  intros Hu Hr. pose proof (fun v => span_digits_of_uint v rest Hr) as Sp.
  destruct u as [|u|u|u|u|u|u|u|u|u|u]; simpl in Hu; try contradiction;
    try (split; unfold match_integer; cbn -[span_digits]; rewrite Sp; reflexivity).
  destruct u; try contradiction. split; reflexivity.
Qed.

Lemma int_of_literal_digits u :
  normal u ->
  int_of_literal (digits_of_uint u) = Z.of_int (Decimal.Pos u) /\
  int_of_literal (45 :: digits_of_uint u) = Z.of_int (Decimal.Neg u).
Proof.
  intros Hu. split.
  - destruct u; simpl in Hu; try contradiction;
      unfold int_of_literal; cbn -[Z.of_int uint_of_digits];
      rewrite <- (uint_of_digits_of_uint u) at 2; reflexivity.
  - unfold int_of_literal. cbn -[Z.of_int uint_of_digits].
    now rewrite uint_of_digits_of_uint.
Qed.

Lemma literal_digits_digits u :
  normal u ->
  literal_digits (digits_of_uint u) = digits_of_uint u /\
  literal_digits (45 :: digits_of_uint u) = digits_of_uint u.
Proof.
  intros Hu. split; [|reflexivity].
  destruct u; simpl in Hu; try contradiction; reflexivity.
Qed.

(** The digits that the limit counts are those of the absolute value. *)
Lemma digits_of_abs z :
  match Z.to_int z with
  | Decimal.Pos u | Decimal.Neg u => digits_of_int (Z.abs z) = digits_of_uint u
  end.
Proof. destruct z; reflexivity. Qed.

(** [int] reads back the numeral of an integer within the limit. *)
Lemma parse_int_digits z :
  too_many_digits (length (digits_of_int (Z.abs z))) = false ->
  parse_int (digits_of_int z) = Ok z.
Proof.
  intros L. unfold parse_int, digits_of_int in *.
  pose proof (to_int_normal z) as Hn.
  pose proof (DecimalZ.of_to z) as Hz.
  pose proof (digits_of_abs z) as Ha. unfold digits_of_int in Ha.
  destruct (Z.to_int z) as [u|u];
    destruct (literal_digits_digits u Hn) as [Lp Ln];
    destruct (int_of_literal_digits u Hn) as [Pp Pn].
  - rewrite Ha in L. rewrite Lp, L, Pp, Hz. reflexivity.
  - rewrite Ha in L. change (ord "-") with 45. rewrite Ln, L, Pn, Hz.
    reflexivity.
Qed.

(** [NUMBER_RE] and [int] read back what [int.__repr__] wrote. *)
Lemma match_number_digits z rest :
  too_many_digits (length (digits_of_int (Z.abs z))) = false ->
  ends_number rest ->
  match_number (digits_of_int z ++ rest) = Some (Ok (PInt z), rest).
Proof.
  intros L Hr. unfold match_number.
  pose proof (parse_int_digits z L) as P. unfold digits_of_int in *.
  pose proof (to_int_normal z) as Hn.
  destruct (Z.to_int z) as [u|u];
    destruct (match_integer_digits u rest Hn Hr) as [Mp Mn].
  - rewrite Mp, (match_frac_none _ Hr), (match_exp_none _ Hr), P. reflexivity.
  - change (ord "-") with 45 in *. cbn [app].
    rewrite Mn, (match_frac_none _ Hr), (match_exp_none _ Hr), P. reflexivity.
Qed.

Lemma int_repr_digits z :
  too_many_digits (length (digits_of_int (Z.abs z))) = false ->
  int_repr z = Ok (digits_of_int z).
Proof. intros L. unfold int_repr. now rewrite L. Qed.

Lemma digits_of_int_head z :
  exists c t, digits_of_int z = c :: t /\ (c = 45 \/ is_digit c = true).
Proof.
  unfold digits_of_int. pose proof (to_int_normal z) as Hn.
  destruct (Z.to_int z) as [u|u].
  - destruct u; simpl in Hn; try contradiction;
      eexists; eexists; (split; [reflexivity | right; reflexivity]).
  - eexists; eexists; (split; [reflexivity | left; reflexivity]).
Qed.

Lemma is_digit_cases c : is_digit c = true ->
  c = 48 \/ c = 49 \/ c = 50 \/ c = 51 \/ c = 52 \/ c = 53 \/ c = 54 \/
  c = 55 \/ c = 56 \/ c = 57.
Proof.
  unfold is_digit. rewrite andb_true_iff, !N.leb_le. lia.
Qed.

(** *** Values *)

Lemma scan_once_string depth s rest :
  scan_once depth (quote :: escape_all s ++ quote :: rest) = Ok (PStr s, rest).
Proof.
  destruct depth; cbn [scan_once]; change (quote =? quote) with true; cbn iota;
    rewrite scanstring_escape_all; reflexivity.
Qed.

Lemma scan_once_encode_basestring depth s rest :
  scan_once depth (encode_basestring s ++ rest) = Ok (PStr s, rest).
Proof.
  unfold encode_basestring. cbn [app]. rewrite <- List.app_assoc.
  apply scan_once_string.
Qed.

Lemma scan_once_number depth c t v rest :
  c = 45 \/ is_digit c = true ->
  match_number (c :: t) = Some (Ok v, rest) ->
  scan_once depth (c :: t) = Ok (v, rest).
Proof.
  intros Hc Hm.
  assert (Hc' : c = 45 \/ c = 48 \/ c = 49 \/ c = 50 \/ c = 51 \/ c = 52 \/
                c = 53 \/ c = 54 \/ c = 55 \/ c = 56 \/ c = 57).
  { destruct Hc as [?|Hd]; [auto | right; now apply is_digit_cases]. }
  clear Hc.
  repeat (destruct Hc' as [-> | Hc'];
          [destruct depth; cbn -[match_number]; rewrite Hm; reflexivity|]).
  subst c. destruct depth; cbn -[match_number]; rewrite Hm; reflexivity.
Qed.

Lemma scan_once_digits depth z rest :
  too_many_digits (length (digits_of_int (Z.abs z))) = false ->
  ends_number rest ->
  scan_once depth (digits_of_int z ++ rest) = Ok (PInt z, rest).
Proof.
  intros L Hr. pose proof (match_number_digits z rest L Hr) as Hm.
  destruct (digits_of_int_head z) as (c & t & E & Hc). rewrite E in *.
  cbn [app] in *. now apply scan_once_number.
Qed.

(** *** Floats *)

(** What [NUMBER_RE] matches in a text, it matches in the text followed
    by the separator of the encoder or by a line feed. *)
Lemma span_digits_app a rest : forall d t,
  span_digits a = (d, t) -> ends_number rest ->
  span_digits (a ++ rest) = (d, t ++ rest).
Proof.
  induction a as [|c a IH]; intros d t H Hr.
  - cbn in H. injection H as <- <-. cbn [app].
    destruct rest as [|x r]; [reflexivity|]. cbn in Hr. cbn [span_digits].
    destruct Hr as [-> | ->]; reflexivity.
  - cbn [span_digits] in H. cbn [app span_digits]. destruct (is_digit c).
    + destruct (span_digits a) as [d' t'] eqn:E. injection H as <- <-.
      rewrite (IH d' t' eq_refl Hr). reflexivity.
    + injection H as <- <-. reflexivity.
Qed.

Lemma match_integer_app a rest i t :
  match_integer a = Some (i, t) -> ends_number rest ->
  match_integer (a ++ rest) = Some (i, t ++ rest) /\
  exists c r, a = c :: r /\ (c = 45 \/ is_digit c = true).
Proof.
  intros H Hr.
  assert (G : forall sign c r,
             (if c =? ord "0" then Some (sign ++ [c], r)
              else if is_digit c
                   then let (d, t0) := span_digits r in Some (sign ++ c :: d, t0)
                   else None) = Some (i, t) ->
             (if c =? ord "0" then Some (sign ++ [c], r ++ rest)
              else if is_digit c
                   then let (d, t0) := span_digits (r ++ rest) in
                        Some (sign ++ c :: d, t0)
                   else None) = Some (i, t ++ rest) /\ is_digit c = true).
  { intros sign c r E. destruct (c =? ord "0") eqn:Z.
    - apply N.eqb_eq in Z. subst c. injection E as <- <-. now split.
    - destruct (is_digit c); [|discriminate].
      destruct (span_digits r) as [d t0] eqn:Sd. injection E as <- <-.
      rewrite (span_digits_app r rest d t0 Sd Hr). now split. }
  unfold match_integer in *. destruct a as [|c a]; [discriminate|].
  cbn [app]. destruct (c =? ord "-") eqn:M.
  - apply N.eqb_eq in M. subst c. destruct a as [|c' a']; [discriminate|].
    cbn [app]. destruct (G _ _ _ H) as [G1 _]. split; [exact G1|].
    exists (ord "-"), (c' :: a'). split; [reflexivity | now left].
  - destruct (G _ _ _ H) as [G1 G2]. split; [exact G1|].
    exists c, a. split; [reflexivity | now right].
Qed.

Lemma match_frac_app s rest f t :
  match_frac s = (f, t) -> ends_number rest ->
  match_frac (s ++ rest) = (f, t ++ rest).
Proof.
  intros H Hr. destruct s as [|c r].
  - cbn in H. injection H as <- <-. cbn [app]. now apply match_frac_none.
  - unfold match_frac in *. cbn [app]. destruct (c =? ord ".").
    + destruct (span_digits r) as [d t0] eqn:Sd.
      rewrite (span_digits_app r rest d t0 Sd Hr).
      destruct d; injection H as <- <-; reflexivity.
    + injection H as <- <-. reflexivity.
Qed.

Lemma match_exp_app s rest x t :
  match_exp s = (x, t) -> ends_number rest ->
  match_exp (s ++ rest) = (x, t ++ rest).
Proof.
  intros H Hr. destruct s as [|c r].
  - cbn in H. injection H as <- <-. cbn [app]. now apply match_exp_none.
  - unfold match_exp in *. cbn [app]. destruct ((c =? ord "e") || (c =? ord "E")).
    + assert (G : forall sg r1,
                 match span_digits r1 with
                 | ([], _) => ([], c :: r)
                 | (d, t0) => (c :: sg ++ d, t0)
                 end = (x, t) ->
                 match span_digits (r1 ++ rest) with
                 | ([], _) => ([], c :: r ++ rest)
                 | (d, t0) => (c :: sg ++ d, t0)
                 end = (x, t ++ rest)).
      { intros sg r1 E. destruct (span_digits r1) as [d t0] eqn:Sd.
        rewrite (span_digits_app r1 rest d t0 Sd Hr).
        destruct d; injection E as <- <-; reflexivity. }
      destruct r as [|c1 r'].
      * cbn [app]. specialize (G [] [] H). cbn [app] in G.
        destruct rest as [|y rest']; [exact G|].
        cbn in Hr. destruct Hr as [-> | ->]; exact G.
      * cbn [app]. destruct ((c1 =? ord "-") || (c1 =? ord "+")).
        -- exact (G [c1] r' H).
        -- exact (G [] (c1 :: r') H).
    + injection H as <- <-. reflexivity.
Qed.

Lemma match_number_app a rest v t :
  match_number a = Some (v, t) -> ends_number rest ->
  match_number (a ++ rest) = Some (v, t ++ rest) /\
  exists c r, a = c :: r /\ (c = 45 \/ is_digit c = true).
Proof.
  unfold match_number. intros H Hr.
  destruct (match_integer a) as [[i s1]|] eqn:I; [|discriminate].
  destruct (match_integer_app a rest i s1 I Hr) as [I' Hd]. rewrite I'.
  destruct (match_frac s1) as [f s2] eqn:F.
  rewrite (match_frac_app s1 rest f s2 F Hr).
  destruct (match_exp s2) as [x s3] eqn:X.
  rewrite (match_exp_app s2 rest x s3 X Hr).
  split; [|exact Hd].
  destruct f, x; injection H as <- <-; reflexivity.
Qed.

Lemma float_literal_scan lit rest :
  is_float_literal lit = true -> ends_number rest ->
  match_number (lit ++ rest) = Some (Ok (PFloat (FDecimal lit)), rest) /\
  exists c r, lit = c :: r /\ (c = 45 \/ is_digit c = true).
Proof.
  unfold is_float_literal. intros H Hr.
  destruct (match_number lit) as [[[v|e] t]|] eqn:M; try discriminate.
  destruct v as [| | |f| | |]; try discriminate.
  destruct f as [| | |l]; try discriminate.
  destruct t; [|discriminate]. apply str_eqb_eq in H. subst l.
  exact (match_number_app lit rest _ _ M Hr).
Qed.

Lemma scan_once_float depth lit rest :
  is_float_literal lit = true -> ends_number rest ->
  scan_once depth (lit ++ rest) = Ok (PFloat (FDecimal lit), rest).
Proof.
  intros H Hr. destruct (float_literal_scan lit rest H Hr) as [M (c & r & -> & Hc)].
  cbn [app] in *. now apply scan_once_number.
Qed.

(** *** Arrays of strings *)

Lemma join_cons (sep x : pystr) (l : list pystr) :
  join sep (x :: l) = (x ++ flat_map (fun y => sep ++ y) l)%list.
Proof.
  revert x; induction l as [|y l IH]; intros x.
  - simpl. now rewrite List.app_nil_r.
  - change (join sep (x :: y :: l)) with (x ++ sep ++ join sep (y :: l))%list.
    rewrite IH. cbn [flat_map]. now rewrite <- !List.app_assoc.
Qed.

Lemma length_flat_map_ge {A B} (f : A -> list B) (l : list A) :
  (forall x, 1 <= length (f x))%nat -> (length l <= length (flat_map f l))%nat.
Proof.
  intros H. induction l as [|x l IH]; simpl; [lia|].
  rewrite length_app. specialize (H x). lia.
Qed.

Lemma array_loop_strings depth level l : forall (fuel : nat) s values rest,
  (length l < fuel)%nat ->
  array_loop (scan_once depth) fuel
             (encode_basestring s ++ more_items (S level) l
              ++ newline_indent level ++ 93 :: rest) values
  = Ok (PList (values ++ PStr s :: map PStr l), rest).
Proof.
  induction l as [|y l IH]; intros fuel s values rest Hf;
    (destruct fuel as [|fuel]; [simpl in Hf; lia|]);
    cbn [array_loop]; unfold scan_value;
    rewrite scan_once_encode_basestring; cbn [bind].
  - cbn [more_items flat_map app]. rewrite _w_newline_indent. reflexivity.
  - cbn [more_items flat_map]. rewrite <- !List.app_assoc.
    cbn [app _w]. change (is_ws 44) with false. cbn iota.
    change (44 =? ord "]") with false. change (44 =? ord ",") with true.
    cbn iota. rewrite <- !List.app_assoc, _w_newline_indent.
    rewrite _w_solid by reflexivity.
    change (flat_map _ l) with (more_items (S level) l). simpl in Hf.
    rewrite IH by lia. rewrite <- List.app_assoc. reflexivity.
Qed.

Lemma text_strings fr level s l :
  text fr level (PList (PStr s :: map PStr l))
  = 91 :: newline_indent (S level) ++ encode_basestring s
       ++ more_items (S level) l ++ newline_indent level ++ [93].
Proof.
  cbn [text map]. rewrite join_cons. cbn [text].
  change (ord "[") with 91. f_equal. f_equal. rewrite <- List.app_assoc.
  f_equal. f_equal. unfold more_items.
  induction l as [|y l IH]; [reflexivity|].
  cbn [map flat_map text]. now rewrite IH.
Qed.

Lemma scan_once_strings fr depth level l rest :
  scan_once (S depth) (text fr level (PList (map PStr l)) ++ rest)
  = Ok (PList (map PStr l), rest).
Proof.
  destruct l as [|s l]; [reflexivity|].
  change (map PStr (s :: l)) with (PStr s :: map PStr l).
  rewrite text_strings.
  cbn [app scan_once]. change (91 =? quote) with false.
  change (91 =? ord "{") with false. change (91 =? ord "[") with true.
  cbn iota. unfold JSONArray. rewrite <- !List.app_assoc.
  rewrite _w_newline_indent. rewrite _w_solid by reflexivity.
  unfold encode_basestring at 1. cbn [app]. change (quote =? ord "]") with false.
  cbn iota.
  change (quote :: (escape_all s ++ [quote]) ++ ?x)
    with (encode_basestring s ++ x).
  cbn [app].
  apply (array_loop_strings depth level l _ s [] rest).
  assert (H : (length l <= length (more_items (S level) l))%nat).
  { apply length_flat_map_ge. intros x. cbn [app length]. lia. }
  rewrite !length_app. lia.
Qed.

(** *** Values of the schema *)

Lemma schema_list_strings l :
  forallb (fun x => match x with PStr _ => true | _ => false end) l = true ->
  exists strs, l = map PStr strs.
Proof.
  induction l as [|x l IH]; simpl; [now exists []|].
  rewrite andb_true_iff. intros [Hx Hl]. destruct (IH Hl) as [strs ->].
  destruct x; try discriminate. now exists (s :: strs).
Qed.

Lemma scan_value_schema fr depth level v rest :
  is_schema_value fr v = true -> ends_number rest ->
  scan_value (scan_once (S depth)) (text fr level v ++ rest) = Ok (v, rest).
Proof.
  intros Hv Hr. unfold scan_value. destruct v; try discriminate.
  - cbn [text]. cbn [is_schema_value] in Hv. apply negb_true_iff in Hv.
    now rewrite scan_once_digits.
  - destruct f as [| | |lit]; try discriminate; try reflexivity.
    cbn [is_schema_value] in Hv. apply andb_true_iff in Hv.
    destruct Hv as [Hl Hf]. apply str_eqb_eq in Hf.
    cbn [text floatstr]. rewrite Hf. now rewrite scan_once_float.
  - cbn [text]. now rewrite scan_once_encode_basestring.
  - destruct (schema_list_strings _ Hv) as [strs ->].
    now rewrite scan_once_strings.
Qed.

Lemma text_solid fr level v rest :
  is_schema_value fr v = true -> starts_solid (text fr level v ++ rest).
Proof.
  intros Hv.
  assert (G : forall c t, c = 45 \/ is_digit c = true ->
                          starts_solid ((c :: t) ++ rest)).
  { intros c t [-> | Hc]; [reflexivity|]. apply is_digit_cases in Hc.
    repeat (destruct Hc as [-> | Hc]; [reflexivity|]). now subst. }
  destruct v; try discriminate.
  - cbn [text]. destruct (digits_of_int_head z) as (c & t & -> & Hc). now apply G.
  - destruct f as [| | |lit]; try discriminate; try reflexivity.
    cbn [is_schema_value] in Hv. apply andb_true_iff in Hv.
    destruct Hv as [Hl Hf]. apply str_eqb_eq in Hf.
    cbn [text floatstr]. rewrite Hf.
    destruct (float_literal_scan lit [] Hl I) as [_ (c & t & -> & Hc)].
    now apply G.
  - reflexivity.
  - destruct l; reflexivity.
Qed.

(** *** Records *)

Lemma more_entries_ends fr d rest :
  ends_number (more_entries fr d ++ newline_indent 0 ++ 125 :: rest).
Proof. destruct d; simpl; auto. Qed.

Lemma object_loop_entries fr depth d : forall (fuel : nat) kv pairs rest,
  (length d < fuel)%nat ->
  is_schema_value fr (snd kv) = true ->
  forallb (fun kv => is_schema_value fr (snd kv)) d = true ->
  object_loop (scan_once (S depth)) fuel
              (entry_body fr kv ++ more_entries fr d
               ++ newline_indent 0 ++ 125 :: rest) pairs
  = Ok (PDict (dict_of_pairs (pairs ++ kv :: d)), rest).
Proof.
  induction d as [|kv' d IH]; intros fuel kv pairs rest Hf Hv Hd;
    (destruct fuel as [|fuel]; [simpl in Hf; lia|]);
    cbn [object_loop]; unfold entry_body;
    rewrite <- List.app_assoc; cbn [app];
    rewrite scanstring_escape_all; cbn [bind _w];
    change (is_ws 58) with false; cbn iota;
    change (58 =? ord ":") with true; cbn iota;
    cbn [_w]; change (is_ws 32) with true; cbn iota;
    rewrite (_w_solid _ (text_solid fr 1 (snd kv) _ Hv));
    rewrite (scan_value_schema fr depth 1 (snd kv) _ Hv (more_entries_ends fr _ rest));
    cbn [bind].
  - cbn [more_entries flat_map app newline_indent repeat Nat.mul _w].
    change (is_ws 10) with true. cbn iota. change (is_ws 125) with false.
    cbn iota. change (125 =? ord "}") with true. cbn iota.
    now destruct kv.
  - cbn [more_entries flat_map]. rewrite <- !List.app_assoc. cbn [app _w].
    change (is_ws 44) with false. cbn iota.
    change (44 =? ord "}") with false. change (44 =? ord ",") with true.
    cbn iota. rewrite <- !List.app_assoc, _w_newline_indent. cbn [app _w].
    change (is_ws quote) with false. cbn iota.
    change (quote =? quote) with true. cbn iota.
    change (flat_map _ d) with (more_entries fr d).
    cbn [forallb] in Hd.
    apply andb_true_iff in Hd. destruct Hd as [Hv' Hd]. simpl in Hf.
    rewrite IH by (assumption || lia). rewrite <- List.app_assoc.
    now destruct kv.
Qed.

Lemma text_record fr kv d :
  text fr 0 (PDict (kv :: d))
  = 123 :: newline_indent 1 ++ quote :: entry_body fr kv
        ++ more_entries fr d ++ newline_indent 0 ++ [125].
Proof.
  assert (E : forall kv0 : pystr * pyval,
             encode_basestring (fst kv0) ++ str ": " ++ text fr 1 (snd kv0)
             = quote :: entry_body fr kv0).
  { intros kv0. unfold encode_basestring, entry_body. cbn [app].
    now rewrite <- List.app_assoc. }
  cbn [text map]. rewrite join_cons, E. change (ord "{") with 123.
  change (ord "}") with 125. f_equal. f_equal.
  rewrite <- List.app_assoc. cbn [app]. f_equal. f_equal. f_equal.
  unfold more_entries. induction d as [|kv' d IH]; [reflexivity|].
  cbn [map flat_map]. rewrite IH, E. reflexivity.
Qed.

Lemma distinct_NoDup l : distinct l = true -> NoDup l.
Proof.
  induction l as [|x l IH]; simpl; [constructor|].
  rewrite andb_true_iff, negb_true_iff. intros [Hx Hl].
  constructor; [now apply mem_not_In | auto].
Qed.

(** [json.loads] reads back the record from the text of the encoder. *)
Lemma loads_text fr depth r :
  is_schema_record fr r = true ->
  loads (S (S depth)) (text fr 0 (PDict r)) = Ok (PDict r).
Proof.
  unfold is_schema_record. rewrite andb_true_iff. intros [Hk Hv].
  destruct r as [|kv d]; [reflexivity|].
  rewrite text_record.
  unfold loads, decode. cbn [_w]. change (is_ws 123) with false. cbn iota.
  unfold scan_value at 1. cbn [scan_once].
  change (123 =? quote) with false. change (123 =? ord "{") with true.
  cbn iota. unfold JSONObject. rewrite _w_newline_indent. cbn [_w].
  change (is_ws quote) with false. cbn iota.
  change (quote =? ord "}") with false. change (quote =? quote) with true.
  cbn iota. cbn [forallb] in Hv. apply andb_true_iff in Hv. destruct Hv as [Hv Hd].
  change [125] with (125 :: @nil N).
  rewrite (object_loop_entries fr depth d _ kv [] [] ); try assumption.
  - cbn [bind app _w]. rewrite dict_of_pairs_NoDup; [reflexivity|].
    now apply distinct_NoDup.
  - assert (H : (length d <= length (more_entries fr d))%nat).
    { apply length_flat_map_ge. intros x. cbn [app length]. lia. }
    rewrite !length_app. lia.
Qed.

(** *** The encoder raises nothing on a record of the schema *)

Lemma chunks_Ok {A} (encode : A -> result pystr) (f : A -> pystr) (l : list A) :
  (forall x, In x l -> encode x = Ok (f x)) ->
  chunks encode l = Ok (map f l).
Proof.
  induction l as [|x l IH]; intros H; [reflexivity|].
  cbn [chunks map]. rewrite (H x (or_introl eq_refl)). cbn [bind].
  rewrite IH by (intros y Hy; apply H; now right). reflexivity.
Qed.

Lemma iterencode_value fr level v :
  is_schema_value fr v = true -> iterencode fr level v = Ok (text fr level v).
Proof.
  intros Hv. destruct v; try discriminate.
  - cbn [iterencode text]. cbn [is_schema_value] in Hv.
    apply negb_true_iff in Hv. now apply int_repr_digits.
  - reflexivity.
  - reflexivity.
  - destruct (schema_list_strings _ Hv) as [strs ->].
    destruct strs as [|s strs]; [reflexivity|].
    cbn [map iterencode text].
    rewrite (chunks_Ok (iterencode fr (S level)) (text fr (S level)))
      by (intros x Hx; change (PStr s :: map PStr strs)
                         with (map PStr (s :: strs)) in Hx;
          apply in_map_iff in Hx; destruct Hx as (y & <- & _); reflexivity).
    reflexivity.
Qed.

Lemma serialize_text fr r :
  is_schema_record fr r = true -> serialize fr r = Ok (text fr 0 (PDict r)).
Proof.
  unfold is_schema_record. rewrite andb_true_iff. intros [_ Hv].
  unfold serialize, dumps_indent2. destruct r as [|kv d]; [reflexivity|].
  cbn [iterencode text].
  rewrite (chunks_Ok _ (fun kv0 => encode_basestring (fst kv0) ++ str ": "
                                   ++ text fr 1 (snd kv0))).
  - reflexivity.
  - rewrite forallb_forall in Hv. intros x Hx.
    now rewrite (iterencode_value fr 1 (snd x) (Hv x Hx)).
Qed.

End JsonFacts.

(** The stages of [_parse_json_from_string]: the whole payload, then the
    text from the first opening brace to the last closing brace, then the
    empty [dict]. *)
Lemma parse_json_stages (limit : nat) (payload : pystr) :
  let snippet := slice payload (find (ord "{") payload)
                       (rfind (ord "}") payload + 1) in
  _parse_json_from_string limit payload =
  match Json.loads limit payload with
  | Ok v => v
  | Raise _ =>
      if contains (ord "{") payload && contains (ord "}") payload then
        match Json.loads limit snippet with
        | Ok v => v
        | Raise _ => PDict []
        end
      else PDict []
  end.
Proof. reflexivity. Qed.

Lemma parse_json_loads (limit : nat) (payload : pystr) (v : pyval) :
  Json.loads limit payload = Ok v -> _parse_json_from_string limit payload = v.
Proof. unfold _parse_json_from_string. now intros ->. Qed.

(** C7, as the code has it. For a record of the schema's value shapes
    (strings, integers of at most 4300 digits, floats other than
    not-a-number, lists of strings), [json.dump] writes a text, and
    parsing that text gives the record back; "not json at all" parses to
    the empty mapping, and [prefix {"a":1} suffix] to the mapping of "a"
    to 1. The interpreter has room for the two levels of nesting of such
    a record. *)
Theorem parse_serialize_roundtrip :
  (forall limit float_repr record,
      is_schema_record float_repr record = true ->
      exists text,
        serialize float_repr record = Ok text /\
        _parse_json_from_string (S (S limit)) text = PDict record) /\
  (forall limit,
      _parse_json_from_string limit (str "not json at all") = PDict []) /\
  (forall limit,
      _parse_json_from_string
        (S limit) (str "prefix {" ++ DQ ++ str "a" ++ DQ ++ str ":1} suffix")
      = PDict [(str "a", PInt 1)]).
Proof.
  split; [|split].
  - intros limit fr record H. exists (JsonText.text fr 0 (PDict record)).
    split; [now apply serialize_text|].
    apply parse_json_loads. now apply loads_text.
  - intros [|limit]; reflexivity.
  - intros [|limit]; reflexivity.
Qed.

Lemma parse_serialize_roundtrip_witness :
  let record := [ (str "Project Name", PStr (str "Acme " ++ DQ ++ str "Solar" ++ DQ));
                  (str "Breakeven year", PInt 2027);
                  (str "Expected IRR (%)", PFloat (FDecimal (str "12.5")));
                  (str "3 main SDGs targeted",
                   PList [PStr (str "No poverty (SDG 1)");
                          PStr (str "Climate action (SDG 13)")]) ] in
  exists text,
    serialize (fun lit => lit) record = Ok text /\
    _parse_json_from_string 2 text = PDict record.
Proof.
  intros record.
  apply (proj1 parse_serialize_roundtrip 0%nat (fun lit => lit) record).
  reflexivity.
Defined.

(** C7, where the code departs from it. An integer of 4301 digits is a
    numeric value, yet [json.dump] raises [ValueError] for the record
    that holds it, and the parser returns the empty mapping, not the
    record, for the JSON text of that record: [int] refuses the
    literal, and the bare [except] takes the exception for a text that
    is not JSON. *)
Theorem parse_serialize_roundtrip_fails :
  (forall float_repr,
      serialize float_repr long_record = Raise Json.value_error) /\
  (forall limit float_repr,
      _parse_json_from_string
        limit (JsonText.text float_repr 0 (PDict long_record)) = PDict []) /\
  PDict [] <> PDict long_record.
Proof.
  split; [|split].
  - intros fr. vm_compute. reflexivity.
  - intros [|[|limit]] fr; vm_compute; reflexivity.
  - discriminate.
Qed.

(** C1, where the code departs from it. A reply that is valid JSON but
    not an object is returned as it is parsed: ["[1, 2]"] gives a list,
    not a mapping, and [summarize_project_with_gpt] then raises
    [AttributeError] at [summary.setdefault]. *)
Theorem parse_json_array_reply (limit : nat) :
  _parse_json_from_string (S limit) (str "[1, 2]") = PList [PInt 1; PInt 2] /\
  returned (summarize_project_with_gpt
              (S limit) (fun _ => Ok [Some (str "[1, 2]")]) (str "pitch"))
  = Raise (mk_exn AttributeError
             (str "'list' object has no attribute 'setdefault'")).
Proof. split; destruct limit; reflexivity. Qed.

(* ================================================================== *)
(** * The metadata file *)
(* ================================================================== *)

Section InfoFacts.

Import PyText.
Local Open Scope N_scope.

Lemma splitlines_line l rest :
  single_line l = true ->
  splitlines (l ++ 10 :: rest) = l :: splitlines rest.
Proof.
  unfold single_line. induction l as [|c l IH]; intros H.
  - cbn [app splitlines]. change (is_linebreak 10) with true. cbn iota.
    destruct rest; reflexivity.
  - cbn [forallb] in H. apply andb_true_iff in H. destruct H as [Hc Hl].
    apply negb_true_iff in Hc.
    cbn [app splitlines]. rewrite Hc, (IH Hl). reflexivity.
Qed.

Lemma single_line_app a b :
  single_line (a ++ b) = single_line a && single_line b.
Proof. unfold single_line. apply forallb_app. Qed.

Lemma split_once_key k v :
  contains 58 k = false -> split_once 58 (k ++ 58 :: v) = Some (k, v).
Proof.
  unfold contains. induction k as [|c k IH]; intros H.
  - reflexivity.
  - cbn [existsb] in H. apply orb_false_iff in H. destruct H as [Hc Hk].
    cbn [app split_once]. rewrite N.eqb_sym, Hc, (IH Hk). reflexivity.
Qed.

Lemma strip_blank v : strip (32 :: v) = strip v.
Proof. reflexivity. Qed.

(** One line of [meta_text], read back. *)
Lemma read_info_entry info k v rest :
  contains 58 k = false -> single_line k = true -> single_line v = true ->
  fold_left read_info_line (splitlines ((k ++ str ": " ++ v) ++ 10 :: rest)) info
  = fold_left read_info_line (splitlines rest)
              (text_set info (strip k) (strip v)).
Proof.
  intros Hc Hk Hv. rewrite splitlines_line.
  - cbn [fold_left]. unfold read_info_line at 2.
    change (str ": " ++ v) with (58 :: 32 :: v).
    change (ord ":") with 58.
    rewrite (split_once_key _ _ Hc), strip_blank. reflexivity.
  - rewrite single_line_app, Hk. change (str ": " ++ v) with (58 :: 32 :: v).
    exact Hv.
Qed.

Lemma read_info_entries meta : forall info rest,
  Forall (fun kv => contains 58 (fst kv) = false
                    /\ single_line (fst kv) = true
                    /\ single_line (snd kv) = true) meta ->
  fold_left read_info_line
    (splitlines (flat_map (fun kv => (fst kv ++ str ": " ++ snd kv) ++ [10]) meta
                 ++ rest)) info
  = fold_left read_info_line (splitlines rest)
      (fold_left (fun info kv => text_set info (strip (fst kv)) (strip (snd kv)))
                 meta info).
Proof.
  induction meta as [|[k v] meta IH]; intros info rest H.
  - reflexivity.
  - inversion H as [|? ? (Hc & Hk & Hv) Hm]; subst. cbn [fst snd] in *.
    cbn [flat_map fold_left fst snd].
    rewrite <- (List.app_assoc (k ++ str ": " ++ v) [10]).
    rewrite <- (List.app_assoc (k ++ str ": " ++ v) ([10] ++ _)).
    change ([10] ++ ?x) with (10 :: x).
    change ((10 :: ?x) ++ rest) with (10 :: x ++ rest).
    rewrite (read_info_entry info k v _ Hc Hk Hv).
    apply IH. exact Hm.
Qed.

Lemma join_lines (lines : list pystr) :
  lines <> [] ->
  join [10] lines ++ [10] = flat_map (fun l => l ++ [10]) lines.
Proof.
  induction lines as [|x lines IH]; [congruence|]. intros _.
  destruct lines as [|y lines]; [cbn; now rewrite List.app_nil_r|].
  change (join [10] (x :: y :: lines)) with (x ++ [10] ++ join [10] (y :: lines)).
  cbn [flat_map] in *. rewrite <- IH by congruence.
  now rewrite <- !List.app_assoc.
Qed.

Lemma meta_text_lines meta :
  meta <> [] ->
  meta_text meta
  = flat_map (fun kv => (fst kv ++ str ": " ++ snd kv) ++ [10]) meta
    ++ str "NDA: Accepted" ++ [10].
Proof.
  unfold meta_text, LF. intros Hm.
  rewrite List.app_assoc, join_lines.
  - now rewrite flat_map_concat_map, map_map, <- flat_map_concat_map.
  - destruct meta; [congruence | discriminate].
Qed.

(** What is read back from the text written for any metadata whose keys
    have no colon and whose keys and values are single lines. *)
Lemma read_info_meta_text meta :
  meta <> [] ->
  Forall (fun kv => contains 58 (fst kv) = false
                    /\ single_line (fst kv) = true
                    /\ single_line (snd kv) = true) meta ->
  read_info (meta_text meta)
  = info_of (meta ++ [(str "NDA", str "Accepted")]).
Proof.
  intros Hm H. unfold read_info, info_of. rewrite (meta_text_lines _ Hm).
  rewrite read_info_entries by exact H.
  rewrite fold_left_app. reflexivity.
Qed.


(** X1. The metadata that [_save_submission] and [_update_submission]
    write to [info.txt] is read back by the dashboard, the export and the
    edit mode: when no value holds a line boundary, every field comes back
    with its value stripped of surrounding blanks, in the order written,
    followed by the entry of the NDA. (The text read is the text written:
    the encoding of the file is not part of the model.) *)
Theorem info_roundtrip (proj inc_date country sector email : pystr) :
  single_line proj = true -> single_line inc_date = true ->
  single_line country = true -> single_line sector = true ->
  single_line email = true ->
  read_info (meta_text (form_meta proj inc_date country sector email))
  = [ (str "Project", strip proj);
      (str "Incorporation date", strip inc_date);
      (str "Country HQ", strip country);
      (str "Sector", strip sector);
      (str "Email", strip email);
      (str "NDA", str "Accepted") ].
Proof.
  intros H1 H2 H3 H4 H5. rewrite read_info_meta_text.
  - unfold info_of, form_meta. cbn [app fold_left fst snd].
    generalize (strip proj) (strip inc_date) (strip country) (strip sector)
               (strip email).
    intros. vm_compute. reflexivity.
  - discriminate.
  - unfold form_meta.
    repeat (constructor; [cbn [fst snd]; split; [reflexivity | split; [reflexivity | assumption]] |]).
    constructor.
Qed.

Lemma info_roundtrip_witness :
  read_info (meta_text (form_meta (str "Solar Kiosk") (str "2021-03-01")
                                  (str "Kenya") (str "Energy")
                                  (str " a@b.org ")))
  = [ (str "Project", str "Solar Kiosk");
      (str "Incorporation date", str "2021-03-01");
      (str "Country HQ", str "Kenya");
      (str "Sector", str "Energy");
      (str "Email", str "a@b.org");
      (str "NDA", str "Accepted") ].
Proof.
  exact (info_roundtrip (str "Solar Kiosk") (str "2021-03-01") (str "Kenya")
                        (str "Energy") (str " a@b.org ")
                        eq_refl eq_refl eq_refl eq_refl eq_refl).
Defined.

(** Facts on [strip]. *)

Lemma lstrip_head s :
  lstrip s = [] \/ exists c r, lstrip s = c :: r /\ isspace c = false.
Proof.
  induction s as [|c s IH]; [now left|].
  cbn [lstrip]. destruct (isspace c) eqn:E; [exact IH|].
  right. now exists c, s.
Qed.

Lemma lstrip_solid c r : isspace c = false -> lstrip (c :: r) = c :: r.
Proof. intros E. cbn [lstrip]. now rewrite E. Qed.

Lemma lstrip_snoc a c :
  isspace c = false -> exists a', lstrip (a ++ [c]) = a' ++ [c].
Proof.
  intros E. induction a as [|x a IH].
  - exists []. cbn [app]. now apply lstrip_solid.
  - cbn [app lstrip]. destruct (isspace x); [exact IH|].
    now exists (x :: a).
Qed.

Lemma lstrip_idem s : lstrip (lstrip s) = lstrip s.
Proof.
  destruct (lstrip_head s) as [-> | (c & r & -> & E)]; [reflexivity|].
  now apply lstrip_solid.
Qed.

Lemma rstrip_idem s : rstrip (rstrip s) = rstrip s.
Proof. unfold rstrip. now rewrite rev_involutive, lstrip_idem. Qed.

Lemma rstrip_head c u :
  isspace c = false -> exists r, rstrip (c :: u) = c :: r.
Proof.
  intros E. unfold rstrip. cbn [rev].
  destruct (lstrip_snoc (rev u) c E) as [a' ->].
  rewrite rev_app_distr. now exists (rev a').
Qed.

Lemma strip_idem s : strip (strip s) = strip s.
Proof.
  unfold strip.
  destruct (lstrip_head s) as [-> | (c & r & -> & E)]; [reflexivity|].
  destruct (rstrip_head c r E) as [r' Hr]. rewrite Hr.
  rewrite (lstrip_solid _ _ E), <- Hr. apply rstrip_idem.
Qed.

Lemma single_line_lstrip s : single_line s = true -> single_line (lstrip s) = true.
Proof.
  unfold single_line. induction s as [|c s IH]; [auto|].
  cbn [lstrip]. destruct (isspace c); [|auto].
  cbn [forallb]. rewrite andb_true_iff. intros [_ H]. auto.
Qed.

Lemma single_line_rev s : single_line (rev s) = single_line s.
Proof.
  unfold single_line. induction s as [|c s IH]; [reflexivity|].
  cbn [rev forallb]. rewrite forallb_app, IH. cbn [forallb].
  rewrite andb_true_r. apply andb_comm.
Qed.

Lemma single_line_strip s : single_line s = true -> single_line (strip s) = true.
Proof.
  intros H. unfold strip, rstrip. rewrite single_line_rev.
  apply single_line_lstrip. rewrite single_line_rev.
  now apply single_line_lstrip.
Qed.

Lemma splitlines_single s : Forall (fun l => single_line l = true) (splitlines s).
Proof.
  assert (G : forall n s, (length s <= n)%nat ->
              Forall (fun l => single_line l = true) (splitlines s)).
  { induction n as [|n IH]; intros [|c r] L; try (constructor; fail);
      cbn [length] in L; [lia|].
    cbn [splitlines]. destruct (is_linebreak c) eqn:E.
    - constructor; [reflexivity|].
      destruct r as [|c' r']; [constructor|].
      destruct ((c =? 13) && (c' =? 10)); apply IH; cbn [length] in *; lia.
    - assert (Hr : Forall (fun l => single_line l = true) (splitlines r))
        by (apply IH; lia).
      destruct (splitlines r) as [|line lines].
      + constructor; [|constructor]. unfold single_line. cbn. now rewrite E.
      + inversion Hr; subst. constructor; [|assumption].
        unfold single_line in *. cbn [forallb]. now rewrite E. }
  exact (G (length s) s (le_n _)).
Qed.

Lemma split_once_parts sep s k v :
  split_once sep s = Some (k, v) -> s = k ++ sep :: v.
Proof.
  revert k. induction s as [|c s IH]; intros k; [discriminate|].
  cbn [split_once]. destruct (c =? sep) eqn:E.
  - apply N.eqb_eq in E. subst. now intros [= <- <-].
  - destruct (split_once sep s) as [[k' v']|]; [|discriminate].
    intros [= <- <-]. cbn [app]. f_equal. now apply IH.
Qed.

(** The values of [info] are stripped single lines, whatever the file
    holds. *)

Lemma text_set_clean info k v :
  Forall (fun kv => clean (snd kv)) info -> clean v ->
  Forall (fun kv => clean (snd kv)) (text_set info k v).
Proof.
  intros H Hv. induction info as [|[k' v'] info IH].
  - constructor; [exact Hv | constructor].
  - inversion H; subst. cbn [text_set]. destruct (str_eqb k' k).
    + constructor; assumption.
    + constructor; auto.
Qed.

Lemma text_get_clean info k default :
  Forall (fun kv => clean (snd kv)) info -> clean default ->
  clean (text_get info k default).
Proof.
  intros H Hd. induction info as [|[k' v'] info IH]; [exact Hd|].
  inversion H; subst. cbn [text_get]. destruct (str_eqb k' k); auto.
Qed.

Lemma read_info_clean text :
  Forall (fun kv => clean (snd kv)) (read_info text).
Proof.
  unfold read_info.
  assert (G : forall lines info,
             Forall (fun l => single_line l = true) lines ->
             Forall (fun kv => clean (snd kv)) info ->
             Forall (fun kv => clean (snd kv)) (fold_left read_info_line lines info)).
  { induction lines as [|l lines IH]; intros info Hl Hi; [exact Hi|].
    inversion Hl; subst. cbn [fold_left]. apply IH; [assumption|].
    unfold read_info_line.
    destruct (split_once (ord ":") l) as [[k v]|] eqn:E; [|exact Hi].
    apply text_set_clean; [exact Hi|].
    apply split_once_parts in E. subst l.
    rewrite single_line_app in H1. apply andb_true_iff in H1.
    destruct H1 as [_ H1]. unfold single_line in H1. cbn [forallb] in H1.
    apply andb_true_iff in H1. destruct H1 as [_ H1].
    split; [now apply single_line_strip | apply strip_idem]. }
  apply G; [apply splitlines_single | constructor].
Qed.

(** X2. Whatever [info.txt] holds, loading a submission in the edit mode
    and saving it again writes metadata that is read back unchanged: the
    five fields of [form_meta] with the values they were loaded with, and
    the entry of the NDA. [today] is the default of the incorporation
    date, a stripped single line. *)
Theorem info_edit_stable (text today : pystr) :
  single_line today = true -> strip today = today ->
  let meta := form_meta_of_info today (read_info text) in
  read_info (meta_text meta) = meta ++ [(str "NDA", str "Accepted")].
Proof.
  intros Ht St meta. subst meta. unfold form_meta_of_info.
  pose proof (read_info_clean text) as C.
  assert (E : clean []) by (split; reflexivity).
  assert (T : clean today) by (split; assumption).
  destruct (text_get_clean _ (str "Project") [] C E) as [A1 B1].
  destruct (text_get_clean _ (str "Incorporation date") today C T) as [A2 B2].
  destruct (text_get_clean _ (str "Country HQ") [] C E) as [A3 B3].
  destruct (text_get_clean _ (str "Sector") [] C E) as [A4 B4].
  destruct (text_get_clean _ (str "Email") [] C E) as [A5 B5].
  rewrite read_info_meta_text.
  - unfold info_of, form_meta. cbn [app fold_left fst snd].
    rewrite B1, B2, B3, B4, B5.
    generalize (text_get (read_info text) (str "Project") [])
               (text_get (read_info text) (str "Incorporation date") today)
               (text_get (read_info text) (str "Country HQ") [])
               (text_get (read_info text) (str "Sector") [])
               (text_get (read_info text) (str "Email") []).
    intros. vm_compute. reflexivity.
  - discriminate.
  - unfold form_meta.
    repeat (constructor; [cbn [fst snd]; split; [reflexivity | split; [reflexivity | assumption]] |]).
    constructor.
Qed.

Lemma info_edit_stable_witness :
  let meta := form_meta_of_info (str "2026-01-05")
                                (read_info (str "Project: Solar Kiosk")) in
  read_info (meta_text meta) = meta ++ [(str "NDA", str "Accepted")].
Proof.
  exact (info_edit_stable (str "Project: Solar Kiosk") (str "2026-01-05")
                          eq_refl eq_refl).
Defined.

End InfoFacts.

(* ================================================================== *)
(** * The SDG selection of the review form *)
(* ================================================================== *)

Section SdgFacts.

Import PyText.

Lemma match_loop_canonical labels : forall matched,
  NoDup (matched ++ labels) ->
  (forall x, In x labels -> In x SDG_OPTIONS) ->
  (length matched < 3)%nat ->
  match_loop labels matched = firstn 3 (matched ++ labels).
Proof.
  induction labels as [|s rest IH]; intros matched ND Hin L.
  - cbn [match_loop]. rewrite List.app_nil_r. symmetry. apply firstn_all2. lia.
  - cbn [match_loop]. unfold match_step.
    rewrite (exact_label_closest s (Hin s (or_introl eq_refl))).
    assert (M : mem s matched = false).
    { apply mem_not_In. intros Hs. apply NoDup_remove_2 in ND. apply ND.
      apply in_or_app. now left. }
    rewrite M. cbn [negb].
    replace (matched ++ s :: rest) with ((matched ++ [s]) ++ rest)
      by (now rewrite <- List.app_assoc).
    destruct (3 <=? length (matched ++ [s]))%nat eqn:E.
    + apply Nat.leb_le in E. rewrite length_app in E. cbn [length] in E.
      rewrite firstn_app.
      replace (3 - length (matched ++ [s]))%nat with O
        by (rewrite length_app; cbn [length]; lia).
      rewrite firstn_O, List.app_nil_r. symmetry. apply firstn_all2.
      rewrite length_app. cbn [length]. lia.
    + apply Nat.leb_gt in E. apply IH.
      * now rewrite <- List.app_assoc.
      * intros x Hx. apply Hin. now right.
      * exact E.
Qed.

(** X3. On a list of distinct labels of [SDG_OPTIONS], such as the
    selection that the review form stored, [_match_sdgs] returns the
    first three labels, in their order: a stored selection of at most
    three is proposed again as it is. *)
Theorem match_sdgs_canonical (labels : list pystr) :
  NoDup labels ->
  (forall x, In x labels -> In x SDG_OPTIONS) ->
  _match_sdgs labels = firstn 3 labels.
Proof.
  intros ND Hin. unfold _match_sdgs.
  now rewrite (match_loop_canonical labels []) by (auto; cbn; lia).
Qed.

Lemma match_sdgs_canonical_witness :
  _match_sdgs [str "Climate action (SDG 13)"; str "No poverty (SDG 1)"]
  = firstn 3 [str "Climate action (SDG 13)"; str "No poverty (SDG 1)"].
Proof.
  apply match_sdgs_canonical.
  - repeat constructor; cbn; intuition discriminate.
  - intros x [<- | [<- | []]]; apply mem_In; reflexivity.
Defined.

(** The parts of a text joined with ["; "]. *)
Lemma split_plain sep x rest :
  contains sep x = false ->
  split sep (x ++ sep :: rest) = x :: split sep rest.
Proof.
  unfold contains. induction x as [|c x IH]; intros H.
  - cbn [app split]. now rewrite N.eqb_refl.
  - cbn [existsb] in H. apply orb_false_iff in H. destruct H as [Hc Hx].
    cbn [app split]. rewrite N.eqb_sym, Hc, (IH Hx). reflexivity.
Qed.

Lemma split_last sep x :
  contains sep x = false -> split sep x = [x].
Proof.
  unfold contains. induction x as [|c x IH]; intros H; [reflexivity|].
  cbn [existsb] in H. apply orb_false_iff in H. destruct H as [Hc Hx].
  cbn [split]. rewrite N.eqb_sym, Hc, (IH Hx). reflexivity.
Qed.

Lemma split_join_semicolon x l :
  Forall (fun y => contains 59%N y = false) (x :: l) ->
  split 59%N (join (str "; ") (x :: l)) = x :: map (cons 32%N) l.
Proof.
  revert x. induction l as [|y l IH]; intros x H.
  - inversion H; subst. cbn [join map]. now apply split_last.
  - inversion H; subst.
    change (join (str "; ") (x :: y :: l))
      with (x ++ 59%N :: 32%N :: join (str "; ") (y :: l)).
    rewrite split_plain by assumption. f_equal.
    cbn [split map]. change (32 =? 59)%N with false. cbn iota.
    rewrite (IH y H3). reflexivity.
Qed.

Lemma label_facts x :
  In x SDG_OPTIONS ->
  contains 59%N x = false /\ strip x = x /\ x <> [].
Proof.
  intros H.
  assert (F : forallb (fun x => negb (contains 59%N x) && str_eqb (strip x) x
                                && nonempty x) SDG_OPTIONS = true)
    by (vm_compute; reflexivity).
  rewrite forallb_forall in F. specialize (F x H).
  rewrite !andb_true_iff, negb_true_iff, str_eqb_eq in F.
  destruct F as [[F1 F2] F3]. repeat split; auto.
  intros ->. discriminate.
Qed.

Lemma sdg_candidates_joined (labels : list pystr) :
  (forall x, In x labels -> In x SDG_OPTIONS) ->
  sdg_candidates (join (str "; ") labels) = labels.
Proof.
  intros Hin. unfold sdg_candidates. destruct labels as [|x l]; [reflexivity|].
  change (ord ";") with 59%N. rewrite split_join_semicolon.
  - cbn [flat_map].
    destruct (label_facts x (Hin x (or_introl eq_refl))) as (_ & Sx & Nx).
    rewrite Sx. destruct x as [|c x]; [congruence|]. cbn [app]. f_equal.
    assert (Hl : forall y, In y l -> In y SDG_OPTIONS)
      by (intros y Hy; apply Hin; now right).
    clear - Hl. induction l as [|y l IH]; [reflexivity|].
    cbn [map flat_map]. rewrite strip_blank.
    destruct (label_facts y (Hl y (or_introl eq_refl))) as (_ & Sy & Ny).
    rewrite Sy. destruct y as [|c y]; [congruence|]. cbn [app]. f_equal.
    apply IH. intros z Hz. apply Hl. now right.
  - apply Forall_forall. intros y Hy. now apply label_facts, Hin.
Qed.

(** X4. For a field that holds distinct labels of [SDG_OPTIONS] as one
    text, joined with ["; "], the review form proposes the first three of
    these labels: splitting at the semicolons and stripping gives the
    labels back, and each is its own closest match. *)
Theorem default_sdgs_joined (labels : list pystr) :
  NoDup labels ->
  (forall x, In x labels -> In x SDG_OPTIONS) ->
  default_sdgs (join (str "; ") labels) = firstn 3 labels.
Proof.
  intros ND Hin. unfold default_sdgs.
  rewrite sdg_candidates_joined by exact Hin.
  unfold _match_sdgs.
  now rewrite (match_loop_canonical labels []) by (auto; cbn; lia).
Qed.

Lemma default_sdgs_joined_witness :
  default_sdgs (str "Climate action (SDG 13); No poverty (SDG 1)")
  = [str "Climate action (SDG 13)"; str "No poverty (SDG 1)"].
Proof.
  apply (default_sdgs_joined
           [str "Climate action (SDG 13)"; str "No poverty (SDG 1)"]).
  - repeat constructor; cbn; intuition discriminate.
  - intros x [<- | [<- | []]]; apply mem_In; reflexivity.
Defined.

End SdgFacts.

(* ================================================================== *)
(** * The record of the review form and the filters of the dashboard *)
(* ================================================================== *)

Section ReviewFacts.

(** X5. Whatever the widgets return, the record that the review form
    hands to [_save_submission] or [_update_submission] has sixteen keys,
    each with the value of its widget; of the twenty names of [AI_FIELDS],
    exactly four are not among them: the sectors, the region, the main
    country and the instrument that the summarizer returned are not
    saved. *)
Theorem review_record_keys (widget : pystr -> pyval) :
  keys (edited widget) = review_fields /\
  (forall f, In f review_fields ->
             dict_get (edited widget) f = Some (widget f)) /\
  (forall f, In f AI_FIELDS ->
             (dict_get (edited widget) f = None <->
              In f [ str "Specific Sector(s)"; str "Region of operation";
                     str "Main country of current operations";
                     str "Instrument" ])).
Proof.
  split; [vm_compute; reflexivity | split].
  - intros f H. unfold review_fields in H. cbn [In] in H.
    repeat (destruct H as [<- | H]; [vm_compute; reflexivity|]).
    contradiction.
  - intros f H. unfold AI_FIELDS in H. cbn [In map] in H.
    repeat (destruct H as [<- | H];
            [ vm_compute; first [ split; [discriminate | intros T; exfalso;
                                                 repeat (destruct T as [T | T]; [discriminate T|]);
                                                 exact T]
                                | split; [intros _; tauto | reflexivity] ] |]).
    contradiction.
Qed.

Lemma absent_key (d : dict) (k : pystr) :
  ~ In k (keys d) -> dict_get d k = None.
Proof.
  intros H. destruct (dict_get d k) eqn:E; [|reflexivity].
  exfalso. apply H. apply dict_get_In_keys. congruence.
Qed.

Variable lower : pystr -> pystr.
Variable float : pystr -> option pynum.

(** X6. A summary with the keys of the review form has no region and no
    main country. So it is never kept by the dashboard when a region is
    selected, nor when a main country is typed (for a [lower] that keeps
    the empty text empty and the typed text non-empty): the filters
    compare with the default, the empty text. *)
Theorem region_filter_hides_review_records
      (f : Filters) (info : textdict) (d : dict) :
  keys d = review_fields ->
  (geography_filter f <> [] /\ ~ In [] (geography_filter f))
  \/ (lower (main_country_filter f) <> [] /\ lower [] = []) ->
  record_passes lower float f info (PDict d) <> Ok true.
Proof.
  intros K H.
  assert (R : dict_get d (str "Region of operation") = None).
  { apply absent_key. rewrite K. vm_compute. intuition discriminate. }
  assert (M : dict_get d (str "Main country of current operations") = None).
  { apply absent_key. rewrite K. vm_compute. intuition discriminate. }
  unfold record_passes.
  destruct (nonempty (hq_filter f) && _); [discriminate|].
  destruct (nonempty (sector_filter f) && _); [discriminate|].
  cbn [summary_get bind]. unfold get_default at 1. rewrite M.
  destruct H as [[G1 G2] | [L1 L2]].
  - destruct (if nonempty (main_country_filter f) then _ else _)
      as [[|]|e]; cbn [bind]; try discriminate.
    destruct (if nonempty (sdg_filter f) then _ else _)
      as [[|]|e]; cbn [bind]; try discriminate.
    unfold get_default at 1. rewrite R.
    destruct (geography_filter f) as [|g gs] eqn:G; [congruence|].
    cbn [nonempty bind not_among].
    apply mem_not_In in G2. rewrite G2. cbn [negb]. discriminate.
  - destruct (main_country_filter f) as [|c m] eqn:Em.
    + exfalso. apply L1. exact L2.
    + cbn [nonempty bind]. rewrite L2.
      destruct (lower (c :: m)) as [|c' m'] eqn:El; [congruence|].
      cbn [PyText.substring PyText.startswith orb negb bind]. discriminate.
Qed.

Lemma below_zero (bound : Q) : (0 < bound)%Q -> below (Finite 0) bound = true.
Proof.
  intros H. unfold below. destruct (Qle_bool bound 0) eqn:E; [|reflexivity].
  apply Qle_bool_iff in E. exfalso. exact (Qlt_not_le _ _ H E).
Qed.

Lemma numeric_value_number (d : dict) (field default : pystr) (sign : N) v :
  dict_get d field = Some v -> is_str v = false ->
  numeric_value float (PDict d) field default sign = Finite 0.
Proof.
  intros G S. unfold numeric_value, get_default. rewrite G.
  destruct v; try reflexivity. discriminate.
Qed.

(** X7. The numeric filters call [replace] on the stored value inside a
    [try] with a bare [except]: for a value that is not a [str], such as
    the number that [json.dump] wrote for a [st.number_input], the value
    compared is 0.0, whatever the number. A submission with such a value
    is never kept once the minimum of that filter is above zero. *)
Theorem stored_number_filtered_as_zero
      (f : Filters) (info : textdict) (d : dict) (field : pystr) (v : pyval) :
  dict_get d field = Some v -> is_str v = false ->
  (field = str "Last 12 months revenues (USD)" /\ (0 < min_rev f)%Q)
  \/ (field = str "Market size or SOM (USD)" /\ (0 < min_som f)%Q)
  \/ (field = str "Expected IRR (%)" /\ (0 < min_irr f)%Q) ->
  record_passes lower float f info (PDict d) <> Ok true.
Proof.
  intros G S H. unfold record_passes.
  destruct (nonempty (hq_filter f) && _); [discriminate|].
  destruct (nonempty (sector_filter f) && _); [discriminate|].
  destruct (if nonempty (main_country_filter f) then _ else _)
    as [[|]|e]; cbn [bind]; try discriminate.
  cbn [summary_get bind].
  destruct (if nonempty (sdg_filter f) then _ else _)
    as [[|]|e]; cbn [bind]; try discriminate.
  destruct (if nonempty (geography_filter f) then _ else _)
    as [[|]|e]; cbn [bind]; try discriminate.
  destruct (if nonempty (maturity_filter f) then _ else _)
    as [[|]|e]; cbn [bind]; try discriminate.
  destruct H as [[-> P] | [[-> P] | [-> P]]].
  - rewrite (numeric_value_number d _ _ _ v G S), (below_zero _ P).
    discriminate.
  - destruct (below _ (min_rev f) || _); [discriminate|].
    rewrite (numeric_value_number d _ _ _ v G S), (below_zero _ P).
    discriminate.
  - destruct (below _ (min_rev f) || _); [discriminate|].
    destruct (below _ (min_som f) || _); [discriminate|].
    rewrite (numeric_value_number d _ _ _ v G S), (below_zero _ P).
    discriminate.
Qed.

End ReviewFacts.

Lemma region_filter_hides_review_records_witness :
  record_passes (fun s => s) (fun _ => None) region_filters []
                (PDict (edited (fun _ => PStr [])))
  <> Ok true.
Proof.
  apply region_filter_hides_review_records.
  - reflexivity.
  - left. split; [discriminate | intros [H | []]; discriminate H].
Defined.

Lemma stored_number_filtered_as_zero_witness :
  record_passes (fun s => s) (fun _ => None) revenue_filters []
                (PDict [(str "Last 12 months revenues (USD)", PInt 250000)])
  <> Ok true.
Proof.
  apply (stored_number_filtered_as_zero
           (fun s => s) (fun _ => None) revenue_filters [] _
           (str "Last 12 months revenues (USD)") (PInt 250000)).
  - reflexivity.
  - reflexivity.
  - left. split; reflexivity.
Defined.

(* ================================================================== *)
(** * The export *)
(* ================================================================== *)

Section ExportFacts.

Implicit Types (d r : dict) (k f : pystr) (v : pyval).

Lemma keys_dict_set_present r k v :
  In k (keys r) -> keys (dict_set r k v) = keys r.
Proof.
  induction r as [|[k' v'] r IH]; cbn [keys map dict_set fst In].
  - contradiction.
  - intros H. destruct (str_eqb k' k) eqn:E; [reflexivity|].
    cbn [map fst]. f_equal. apply IH. destruct H as [H | H]; [|exact H].
    apply str_eqb_neq in E. congruence.
Qed.

Lemma dict_get_set_same r k v : dict_get (dict_set r k v) k = Some v.
Proof.
  induction r as [|[k' v'] r IH]; cbn [dict_set dict_get].
  - now rewrite str_eqb_refl.
  - destruct (str_eqb k' k) eqn:E; cbn [dict_get]; rewrite E; auto.
Qed.

Lemma dict_get_set_other r k v k' :
  k <> k' -> dict_get (dict_set r k v) k' = dict_get r k'.
Proof.
  intros N. induction r as [|[k0 v0] r IH]; cbn [dict_set dict_get].
  - apply str_eqb_neq in N. now rewrite N.
  - destruct (str_eqb k0 k) eqn:E; cbn [dict_get].
    + apply str_eqb_eq in E. subst k0. apply str_eqb_neq in N. now rewrite N.
    + destruct (str_eqb k0 k'); auto.
Qed.

Variable str_other : pyval -> pystr.

Lemma export_loop_keys d : forall r,
  incl AI_FIELDS (keys r) ->
  keys (fold_left (export_step str_other) d r) = keys r.
Proof.
  induction d as [|[k v] d IH]; intros r H; [reflexivity|].
  cbn [fold_left]. unfold export_step at 2. cbn [fst snd].
  destruct (mem k AI_FIELDS) eqn:M.
  - apply mem_In in M. rewrite IH.
    + apply keys_dict_set_present. now apply H.
    + rewrite keys_dict_set_present by now apply H. exact H.
  - now apply IH.
Qed.

Lemma export_loop_get d : forall r f,
  NoDup (keys d) ->
  dict_get (fold_left (export_step str_other) d r) f
  = match (if mem f AI_FIELDS then dict_get d f else None) with
    | Some v => Some (export_value str_other v)
    | None => dict_get r f
    end.
Proof.
  induction d as [|[k v] d IH]; intros r f ND.
  - cbn [fold_left dict_get]. now destruct (mem f AI_FIELDS).
  - cbn [keys map fst] in ND. inversion ND as [|? ? Hk Hd]; subst.
    cbn [fold_left]. rewrite (IH _ f Hd). cbn [dict_get].
    destruct (str_eqb k f) eqn:E.
    + apply str_eqb_eq in E. subst f.
      rewrite (absent_key d k Hk).
      unfold export_step. cbn [fst snd].
      destruct (mem k AI_FIELDS); [apply dict_get_set_same | reflexivity].
    + assert (S : dict_get (export_step str_other r (k, v)) f = dict_get r f).
      { unfold export_step. cbn [fst snd]. destruct (mem k AI_FIELDS); [|reflexivity].
        apply dict_get_set_other. now apply str_eqb_neq. }
      rewrite S. reflexivity.
Qed.

Lemma export_row_start_keys fld info status_val :
  keys (export_row_start fld info status_val)
  = AI_FIELDS ++ [ str "Project"; str "Country HQ"; str "Sector";
                   str "Status"; str "Email" ].
Proof. vm_compute. reflexivity. Qed.

(** X8. For every submission whose summary is an object, the row of the
    export has the keys of [AI_FIELDS] and the five keys of the metadata,
    whatever the summary holds. The table is reindexed on a column
    ["Country"], for which no row has a key, so that column is missing in
    every row; the headquarters country is in the row under
    ["Country HQ"], which is not a column of the table. *)
Theorem export_country_column fld info status_val d :
  exists row,
    export_row str_other fld info status_val (PDict d) = Ok row /\
    keys row = AI_FIELDS ++ [ str "Project"; str "Country HQ"; str "Sector";
                              str "Status"; str "Email" ] /\
    In (str "Country") export_columns /\
    dict_get row (str "Country") = None /\
    dict_get row (str "Country HQ")
    = Some (PStr (text_get info (str "Country HQ") [])) /\
    ~ In (str "Country HQ") export_columns.
Proof.
  eexists. split; [reflexivity|].
  assert (K : keys (fold_left (export_step str_other) d
                              (export_row_start fld info status_val))
              = AI_FIELDS ++ [ str "Project"; str "Country HQ"; str "Sector";
                               str "Status"; str "Email" ]).
  { rewrite export_loop_keys; [apply export_row_start_keys|].
    rewrite export_row_start_keys. intros x Hx. apply in_or_app. now left. }
  split; [exact K | split; [|split; [|split]]].
  - apply mem_In. reflexivity.
  - apply absent_key. rewrite K. apply mem_not_In. reflexivity.
  - assert (G : forall d0 r, dict_get r (str "Country HQ") = Some (PStr (text_get info (str "Country HQ") [])) ->
                dict_get (fold_left (export_step str_other) d0 r) (str "Country HQ")
                = Some (PStr (text_get info (str "Country HQ") []))).
    { induction d0 as [|[k v] d0 IH]; intros r Hr; [exact Hr|].
      cbn [fold_left]. apply IH. unfold export_step. cbn [fst snd].
      destruct (mem k AI_FIELDS) eqn:M; [|exact Hr].
      rewrite dict_get_set_other; [exact Hr|].
      intros ->. revert M. vm_compute. discriminate. }
    apply G. vm_compute. reflexivity.
  - apply mem_not_In. reflexivity.
Qed.

(** X9. In the row of the export, a field of [AI_FIELDS] holds the value
    of the summary (a list joined with ["; "]), or the empty text where
    the summary has no such key; under any other key the row holds what
    the metadata gave, whatever the summary has under that key: keys of
    the summary outside [AI_FIELDS] are not exported. *)
Theorem export_copies_schema_keys_only fld info status_val d row :
  NoDup (keys d) ->
  export_row str_other fld info status_val (PDict d) = Ok row ->
  (forall f, In f AI_FIELDS ->
             dict_get row f
             = Some match dict_get d f with
                    | Some v => export_value str_other v
                    | None => PStr []
                    end) /\
  (forall k, ~ In k AI_FIELDS ->
             dict_get row k
             = dict_get (export_row_start fld info status_val) k).
Proof.
  intros ND E. cbn in E. injection E as <-. split.
  - intros f Hf. rewrite (export_loop_get d _ f ND).
    assert (M : mem f AI_FIELDS = true) by now apply mem_In.
    rewrite M. destruct (dict_get d f); [reflexivity|].
    clear M. unfold AI_FIELDS in Hf. cbn [map In] in Hf.
    repeat (destruct Hf as [<- | Hf]; [vm_compute; reflexivity|]).
    contradiction.
  - intros k Hk. rewrite (export_loop_get d _ k ND).
    apply mem_not_In in Hk. now rewrite Hk.
Qed.

End ExportFacts.

Lemma export_copies_schema_keys_only_witness :
  dict_get (fold_left (export_step (fun _ => []))
                      [ (str "Problem", PList [PStr (str "a"); PStr (str "b")]);
                        (str "Comment", PStr (str "c")) ]
                      (export_row_start (str "P_1") [] Identified))
           (str "Problem")
  = Some (PStr (str "a; b")).
Proof.
  refine (proj1 (export_copies_schema_keys_only
                   (fun _ => []) (str "P_1") [] Identified
                   [ (str "Problem", PList [PStr (str "a"); PStr (str "b")]);
                     (str "Comment", PStr (str "c")) ]
                   _ _ eq_refl)
                (str "Problem") _).
  - repeat constructor; cbn; intuition discriminate.
  - apply mem_In. reflexivity.
Defined.

(* ================================================================== *)
(** * The PIN and the stage of a submission *)
(* ================================================================== *)

Section StoredFacts.

Import Json JsonEncoder JsonDefault.
Local Open Scope N_scope.

Lemma escape_ascii_printable s :
  printable s = true -> flat_map escape_ascii s = escape_all s.
Proof.
  unfold printable. induction s as [|c s IH]; [reflexivity|].
  cbn [forallb flat_map escape_all]. rewrite andb_true_iff. intros [Hc Hs].
  rewrite (IH Hs). unfold escape_ascii. rewrite Hc.
  destruct (escape c); reflexivity.
Qed.

Lemma encode_basestring_ascii_printable s :
  printable s = true -> encode_basestring_ascii s = encode_basestring s.
Proof.
  intros H. unfold encode_basestring_ascii, encode_basestring.
  now rewrite escape_ascii_printable.
Qed.

(** The text written for one entry is read back as that entry. *)
Lemma loads_dump_entry limit key value :
  printable key = true -> printable value = true ->
  loads (S limit) (dump_entry key value) = Ok (PDict [(key, PStr value)]).
Proof.
  intros Hk Hv. unfold dump_entry.
  rewrite !encode_basestring_ascii_printable by assumption.
  unfold encode_basestring. change (ord "{") with 123.
  unfold loads, decode. cbn [_w]. change (is_ws 123) with false. cbn iota.
  unfold scan_value at 1. cbn [scan_once].
  change (123 =? quote) with false. change (123 =? ord "{") with true.
  cbn iota. unfold JSONObject. cbn [app _w].
  change (is_ws quote) with false. cbn iota.
  change (quote =? ord "}") with false. change (quote =? quote) with true.
  cbn iota. cbn [object_loop].
  rewrite <- !List.app_assoc. cbn [app].
  rewrite scanstring_escape_all. cbn [bind].
  change (str ": ") with [58; 32]. cbn [app _w].
  change (is_ws 58) with false. cbn iota.
  change (58 =? ord ":") with true. cbn iota.
  cbn [_w]. change (is_ws 32) with true. cbn iota.
  change (is_ws quote) with false. cbn iota.
  rewrite <- List.app_assoc. cbn [app].
  unfold scan_value. rewrite scan_once_string. cbn [bind app _w].
  change (ord "}") with 125.
  change (is_ws 125) with false. cbn iota.
  change (125 =? 125) with true. cbn iota. reflexivity.
Qed.

Lemma format_04d_range (n : Z) :
  (0 <= n <= 9999)%Z ->
  length (PyText.format_04d n) = 4%nat /\
  forallb is_digit (PyText.format_04d n) = true /\
  printable (PyText.format_04d n) = true /\
  parse_int (PyText.format_04d n) = Ok n.
Proof.
  intros H.
  assert (F : forallb (fun i =>
                let pin := PyText.format_04d (Z.of_nat i) in
                Nat.eqb (length pin) 4 && forallb is_digit pin
                && printable pin
                && match parse_int pin with
                   | Ok m => Z.eqb m (Z.of_nat i)
                   | Raise _ => false
                   end)
              (seq 0 (Z.to_nat 10000)) = true) by (vm_compute; reflexivity).
  rewrite forallb_forall in F. specialize (F (Z.to_nat n)).
  rewrite Z2Nat.id in F by lia.
  assert (I : In (Z.to_nat n) (seq 0 (Z.to_nat 10000))) by (apply in_seq; lia).
  specialize (F I). rewrite !andb_true_iff in F.
  destruct F as [[[F1 F2] F3] F4].
  apply Nat.eqb_eq in F1.
  destruct (parse_int (PyText.format_04d n)) as [m|e]; [|discriminate].
  apply Z.eqb_eq in F4. subst m. auto.
Qed.

(** X10. For every draw of [random.randint(0, 9999)], the PIN is four
    decimal digits, and the text that [_save_submission] writes to
    [credentials.json] is read back by the edit mode so that the PIN typed
    is accepted exactly when it is the PIN drawn. *)
Theorem pin_roundtrip (limit : nat) (n : Z) (epin : pystr) :
  (0 <= n <= 9999)%Z ->
  let pin := PyText.format_04d n in
  length pin = 4%nat /\
  forallb is_digit pin = true /\
  pin_accepted (S limit) (dump_entry (str "pin") pin) epin
  = Ok (str_eqb pin epin).
Proof.
  intros H pin. destruct (format_04d_range n H) as (L & D & P & _).
  split; [exact L | split; [exact D|]].
  unfold pin_accepted. rewrite loads_dump_entry by (reflexivity || exact P).
  reflexivity.
Qed.

Lemma pin_roundtrip_witness :
  pin_accepted 1 (dump_entry (str "pin") (PyText.format_04d 42)) (str "0042")
  = Ok true.
Proof.
  assert (H : (0 <= 42 <= 9999)%Z) by lia.
  exact (proj2 (proj2 (pin_roundtrip 0 42 (str "0042") H))).
Defined.

(** X11. A stage of [REVIEW_STAGES] saved by the dashboard is read back
    from [status.json] by the dashboard and by the export, and the
    selectbox of the submission then shows that stage. *)
Theorem status_roundtrip (limit : nat) (option : pystr) :
  In option REVIEW_STAGES ->
  let status_json := Some (dump_entry (str "status") option) in
  read_status (S limit) status_json = PStr option /\
  export_status (S limit) status_json = Ok (PStr option) /\
  nth_error REVIEW_STAGES (stage_index (read_status (S limit) status_json))
  = Some option.
Proof.
  intros H status_json. subst status_json.
  assert (P : printable option = true).
  { unfold REVIEW_STAGES in H. cbn [In] in H.
    repeat (destruct H as [<- | H]; [reflexivity|]). contradiction. }
  unfold read_status, export_status.
  rewrite loads_dump_entry by (reflexivity || exact P).
  cbn [bind]. change (get_default [(str "status", PStr option)] (str "status")
                                  Identified) with (PStr option).
  change (dict_get [(str "status", PStr option)] (str "status"))
    with (Some (PStr option)).
  split; [reflexivity | split; [reflexivity|]].
  unfold REVIEW_STAGES in H. cbn [In] in H.
  repeat (destruct H as [<- | H]; [reflexivity|]). contradiction.
Qed.

Lemma status_roundtrip_witness :
  nth_error REVIEW_STAGES
            (stage_index
               (read_status 1 (Some (dump_entry (str "status") (str "IC1")))))
  = Some (str "IC1").
Proof.
  refine (proj2 (proj2 (status_roundtrip 0 (str "IC1") _))).
  apply mem_In. reflexivity.
Defined.

(** X12. The dashboard and the export read [status.json] differently.
    Where the export reads a status, the dashboard reads the same one;
    where [json.load] raises, or the object has no ["status"], the
    dashboard falls back to ["Identified"] and the export raises. *)
Theorem status_damaged (limit : nat) (text : pystr) :
  (forall v, export_status limit (Some text) = Ok v ->
             read_status limit (Some text) = v) /\
  (forall e, loads limit text = Raise e ->
             read_status limit (Some text) = Identified /\
             export_status limit (Some text) = Raise e) /\
  (forall d, loads limit text = Ok (PDict d) ->
             dict_get d (str "status") = None ->
             read_status limit (Some text) = Identified /\
             exists e, export_status limit (Some text) = Raise e).
Proof.
  unfold read_status, export_status. split; [|split].
  - intros v. destruct (loads limit text) as [[| | | | |l|d]|e]; cbn [bind];
      try discriminate.
    unfold get_default. destruct (dict_get d (str "status")); [|discriminate].
    now intros [= ->].
  - intros e ->. split; reflexivity.
  - intros d -> G. cbn [bind]. unfold get_default. rewrite G.
    split; [reflexivity | eexists; reflexivity].
Qed.

End StoredFacts.

(* ================================================================== *)
(** * More on the summarizer and the repair parser *)
(* ================================================================== *)

Section SummarizerFacts.

Variable limit : nat.
Variable create : ChatRequest -> result ChatResponse.

(** X13. A completion without any choice, or whose first choice has a
    null content, is handled as a failure of the backend: one message is
    shown, nothing is raised, and the record returned has the names of
    [AI_FIELDS] as keys, each with ["Unknown"]. *)
Theorem summarize_malformed_completion (full_text : pystr) (resp : ChatResponse) :
  create (chat_request full_text) = Ok resp ->
  resp = [] \/ (exists rest, resp = None :: rest) ->
  let out := summarize_project_with_gpt limit create full_text in
  (exists msg, shown out = [str "OpenAI API error: " ++ msg]) /\
  exists record,
    returned out = Ok (PDict record) /\
    keys record = AI_FIELDS /\
    forall f, In f AI_FIELDS -> dict_get record f = Some Unknown.
Proof.
  intros Hc H. unfold summarize_project_with_gpt, request_summary.
  rewrite Hc. cbn [bind].
  assert (R : forall e, is_Exception e = true ->
    let out := (if is_Exception e
                then {| shown := [str "OpenAI API error: " ++ exn_msg e];
                        returned := fill_defaults (PDict []) |}
                else {| shown := []; returned := Raise e |}) in
    (exists msg, shown out = [str "OpenAI API error: " ++ msg]) /\
    exists record,
      returned out = Ok (PDict record) /\
      keys record = AI_FIELDS /\
      forall f, In f AI_FIELDS -> dict_get record f = Some Unknown).
  { intros e ->. cbn [shown returned]. split; [eexists; reflexivity|].
    exists (defaulting []). split; [reflexivity|]. split.
    - exact keys_defaulting_nil.
    - intros f Hf. now apply fill_absent. }
  destruct H as [-> | [rest ->]]; cbn [bind]; apply R; reflexivity.
Qed.

Lemma slice_firstn {A} (l : list A) (n : Z) :
  (0 <= n)%Z -> slice l 0 n = firstn (Z.to_nat n) l.
Proof.
  intros H. unfold slice, adjust_index.
  change (0 <? 0)%Z with false. cbn iota.
  destruct (n <? 0)%Z eqn:E; [apply Z.ltb_lt in E; lia|].
  rewrite (Z.min_l 0) by lia. replace (Z.to_nat (Z.min n (Z.of_nat (length l)) - 0))
    with (Nat.min (Z.to_nat n) (length l)) by lia.
  cbn [Z.to_nat skipn].
  destruct (Nat.le_ge_cases (Z.to_nat n) (length l)).
  - now rewrite Nat.min_l.
  - rewrite Nat.min_r by assumption. now rewrite !firstn_all2.
Qed.

(** X14. Only the first 15000 characters of the extracted text reach the
    backend: the request, and so the summary, is the one of the text cut
    at 15000 characters. *)
Theorem chat_request_truncates (full_text : pystr) :
  chat_request full_text = chat_request (firstn (Z.to_nat 15000) full_text) /\
  summarize_project_with_gpt limit create full_text
  = summarize_project_with_gpt limit create
                               (firstn (Z.to_nat 15000) full_text).
Proof.
  assert (E : chat_request full_text
              = chat_request (firstn (Z.to_nat 15000) full_text)).
  { unfold chat_request. rewrite !slice_firstn by lia.
    now rewrite firstn_firstn, Nat.min_id. }
  split; [exact E|].
  unfold summarize_project_with_gpt, request_summary. now rewrite E.
Qed.

End SummarizerFacts.

Lemma summarize_malformed_completion_witness :
  let out := summarize_project_with_gpt 10 (fun _ => Ok [None]) (str "pitch") in
  (exists msg, shown out = [str "OpenAI API error: " ++ msg]) /\
  exists record,
    returned out = Ok (PDict record) /\
    keys record = AI_FIELDS /\
    forall f, In f AI_FIELDS -> dict_get record f = Some Unknown.
Proof.
  apply (summarize_malformed_completion 10 (fun _ => Ok [None]) (str "pitch")
                                        [None] eq_refl).
  right. now exists [].
Defined.

Section RepairFacts.

Lemma contains_app c a b : contains c (a ++ b) = contains c a || contains c b.
Proof. unfold contains. apply existsb_app. Qed.

Lemma find_ge c s : (-1 <= find c s)%Z.
Proof.
  induction s as [|x s IH]; cbn [find]; [lia|].
  destruct (N.eqb x c); [lia|]. destruct (find c s <? 0)%Z; lia.
Qed.

Lemma find_first c pre rest :
  contains c pre = false ->
  find c (pre ++ c :: rest) = Z.of_nat (length pre).
Proof.
  unfold contains. induction pre as [|x pre IH]; intros H.
  - cbn [app find length]. now rewrite N.eqb_refl.
  - cbn [existsb] in H. apply orb_false_iff in H. destruct H as [Hx Hp].
    cbn [app find]. rewrite N.eqb_sym, Hx, (IH Hp).
    destruct (Z.of_nat (length pre) <? 0)%Z eqn:E; [apply Z.ltb_lt in E; lia|].
    cbn [length]. lia.
Qed.

Lemma rfind_absent c s : contains c s = false -> rfind c s = (-1)%Z.
Proof.
  unfold contains. induction s as [|x s IH]; intros H; [reflexivity|].
  cbn [existsb] in H. apply orb_false_iff in H. destruct H as [Hx Hs].
  cbn [rfind]. rewrite (IH Hs). cbn. now rewrite N.eqb_sym, Hx.
Qed.

Lemma rfind_last c body post :
  contains c post = false ->
  rfind c (body ++ c :: post) = Z.of_nat (length body).
Proof.
  intros H. induction body as [|x body IH].
  - cbn [app rfind length]. rewrite (rfind_absent _ _ H). cbn.
    now rewrite N.eqb_refl.
  - cbn [app rfind]. rewrite IH.
    destruct (0 <=? Z.of_nat (length body))%Z eqn:E;
      [|apply Z.leb_gt in E; lia].
    cbn [length]. lia.
Qed.

Lemma slice_middle {A} (pre body post : list A) :
  slice (pre ++ body ++ post) (Z.of_nat (length pre))
        (Z.of_nat (length pre + length body))
  = body.
Proof.
  unfold slice, adjust_index. rewrite !length_app.
  destruct (Z.of_nat (length pre) <? 0)%Z eqn:E1; [apply Z.ltb_lt in E1; lia|].
  destruct (Z.of_nat (length pre + length body) <? 0)%Z eqn:E2;
    [apply Z.ltb_lt in E2; lia|].
  rewrite !Z.min_l by lia.
  replace (Z.to_nat (Z.of_nat (length pre + length body) - Z.of_nat (length pre)))
    with (length body) by lia.
  rewrite Nat2Z.id, skipn_app, skipn_all, Nat.sub_diag. cbn [app skipn].
  rewrite firstn_app, firstn_all, Nat.sub_diag. cbn [firstn].
  apply List.app_nil_r.
Qed.

(** X15. The second stage of [_parse_json_from_string] on a reply that
    wraps an object in text: when the reply as a whole is not JSON, the
    text before the object has no opening brace and the text after it no
    closing brace, the result is what [json.loads] gives for the object
    alone, or the empty mapping where that raises. *)
Theorem parse_json_snippet (limit : nat) (pre body post : pystr) (e : exn) :
  contains (ord "{") pre = false ->
  contains (ord "}") post = false ->
  Json.loads limit (pre ++ (ord "{" :: body ++ [ord "}"]) ++ post) = Raise e ->
  _parse_json_from_string limit (pre ++ (ord "{" :: body ++ [ord "}"]) ++ post)
  = match Json.loads limit (ord "{" :: body ++ [ord "}"]) with
    | Ok v => v
    | Raise _ => PDict []
    end.
Proof.
  intros Hpre Hpost Hl. unfold _parse_json_from_string. rewrite Hl.
  set (obj := ord "{" :: body ++ [ord "}"]).
  assert (C1 : contains (ord "{") (pre ++ obj ++ post) = true).
  { rewrite !contains_app. unfold obj. cbn [contains existsb].
    rewrite N.eqb_refl. cbn. now rewrite orb_true_r. }
  assert (C2 : contains (ord "}") (pre ++ obj ++ post) = true).
  { rewrite !contains_app. unfold obj.
    change (ord "{" :: body ++ [ord "}"]) with ((ord "{" :: body) ++ [ord "}"]).
    rewrite contains_app. cbn [contains existsb].
    rewrite N.eqb_refl. cbn. now rewrite !orb_true_r. }
  rewrite C1, C2. cbn [andb].
  assert (F : find (ord "{") (pre ++ obj ++ post) = Z.of_nat (length pre)).
  { unfold obj. cbn [app]. now apply find_first. }
  assert (R : (rfind (ord "}") (pre ++ obj ++ post) + 1
               = Z.of_nat (length pre + length obj))%Z).
  { unfold obj.
    replace (pre ++ (ord "{" :: body ++ [ord "}"]) ++ post)
      with ((pre ++ ord "{" :: body) ++ ord "}" :: post)
      by (rewrite <- !List.app_assoc; cbn [app]; now rewrite <- List.app_assoc).
    rewrite (rfind_last _ _ _ Hpost). rewrite !length_app. cbn [length].
    rewrite length_app. cbn [length]. lia. }
  rewrite F, R, slice_middle. reflexivity.
Qed.

End RepairFacts.

Lemma parse_json_snippet_witness :
  _parse_json_from_string
    10 (str "Here is the summary: "
        ++ (ord "{" :: (DQ ++ str "Instrument" ++ DQ ++ str ": "
                        ++ DQ ++ str "Equity" ++ DQ) ++ [ord "}"])
        ++ str " Let me know if you need more.")
  = PDict [(str "Instrument", PStr (str "Equity"))].
Proof.
  refine (parse_json_snippet 10 _ _ _ Json.decode_error _ _ _); reflexivity.
Defined.

Section OrderFacts.

Lemma keys_app (d e : dict) : keys (d ++ e) = keys d ++ keys e.
Proof. unfold keys. apply map_app. Qed.

Lemma filter_ext_in_keys (ks : list pystr) (a b : list pystr) :
  (forall k, In k ks -> mem k a = mem k b) ->
  filter (fun f => negb (mem f a)) ks = filter (fun f => negb (mem f b)) ks.
Proof.
  intros H. apply filter_ext_in. intros k Hk. now rewrite (H k Hk).
Qed.

Lemma fill_order (ks : list pystr) : forall d : dict,
  NoDup ks ->
  keys (fill ks d) = keys d ++ filter (fun f => negb (mem f (keys d))) ks.
Proof.
  induction ks as [|k ks IH]; intros d ND.
  - cbn. now rewrite List.app_nil_r.
  - inversion ND as [|? ? Hk Hks]; subst.
    change (fill (k :: ks) d) with (fill ks (setdefault d k Unknown)).
    rewrite (IH _ Hks). cbn [filter]. unfold setdefault.
    destruct (dict_get d k) eqn:G.
    + assert (M : mem k (keys d) = true).
      { apply mem_In, dict_get_In_keys. congruence. }
      now rewrite M.
    + assert (M : mem k (keys d) = false).
      { apply mem_not_In. intros Hin. apply dict_get_In_keys in Hin. congruence. }
      rewrite M. cbn [negb]. rewrite keys_app. cbn [keys map fst].
      rewrite <- List.app_assoc. cbn [app]. f_equal. f_equal.
      apply filter_ext_in_keys. intros x Hx. unfold mem.
      rewrite existsb_app. cbn [existsb]. rewrite orb_false_r.
      assert (N : str_eqb x k = false).
      { apply str_eqb_neq. intros ->. contradiction. }
      now rewrite N, orb_false_r.
Qed.

(** X16. The Merge/Defaulting step keeps the keys of the reply in the
    order of the reply, and appends the missing names of [AI_FIELDS] in
    the order of [AI_FIELDS]. *)
Theorem defaulting_order (r : dict) :
  keys (defaulting r)
  = keys r ++ filter (fun f => negb (mem f (keys r))) AI_FIELDS.
Proof.
  apply fill_order. apply distinct_NoDup. vm_compute. reflexivity.
Qed.

End OrderFacts.

(* ================================================================== *)
(** * The folder and the Project ID of a submission *)
(* ================================================================== *)

Section FolderFacts.

Import PosixPath.
Local Open Scope N_scope.

Lemma contains_replace_space s :
  contains 47 (PyText.replace 32 [95] s) = contains 47 s.
Proof.
  unfold contains, PyText.replace. induction s as [|c s IH]; [reflexivity|].
  cbn [flat_map existsb]. destruct (c =? 32) eqn:E.
  - apply N.eqb_eq in E. subst c. cbn [app existsb]. now rewrite IH.
  - cbn [app existsb]. now rewrite IH.
Qed.

Lemma join_upload_folder s :
  join UPLOAD_FOLDER s
  = if PyText.startswith [47] s then s else UPLOAD_FOLDER ++ 47 :: s.
Proof. unfold join. destruct (PyText.startswith [47] s); reflexivity. Qed.

Lemma startswith_sep s :
  PyText.startswith [47] s = true -> contains 47 s = true.
Proof.
  destruct s as [|c s]; [discriminate|]. cbn [PyText.startswith contains existsb].
  rewrite andb_true_r. now intros ->.
Qed.

(** X17. When the project name has no slash, the Project ID shown after
    a submission is the name with its blanks replaced, an underscore and
    the time stamp, and the path that the edit mode opens for that ID is
    the path of the folder that [_save_submission] made. The time stamp
    has no slash. *)
Theorem project_id_locates_folder (project ts : pystr) :
  contains 47 ts = false ->
  contains 47 project = false ->
  let fld := submission_folder project ts in
  project_id fld = PyText.replace 32 [95] project ++ str "_" ++ ts /\
  edit_folder (project_id fld) = fld.
Proof.
  intros Hts P fld. subst fld. unfold submission_folder, edit_folder, project_id.
  set (s := PyText.replace 32 [95] project ++ str "_" ++ ts).
  assert (Cs : contains 47 s = false).
  { unfold s. rewrite !contains_app, contains_replace_space, Hts, P.
    reflexivity. }
  rewrite (join_upload_folder s).
  destruct (PyText.startswith [47] s) eqn:S1;
    [apply startswith_sep in S1; congruence|].
  assert (B : basename (UPLOAD_FOLDER ++ 47 :: s) = s).
  { unfold basename. rewrite (rfind_last 47 UPLOAD_FOLDER s Cs).
    replace (Z.to_nat (Z.of_nat (length UPLOAD_FOLDER) + 1))
      with (length (UPLOAD_FOLDER ++ [47]))
      by (rewrite length_app; cbn [length]; lia).
    replace (UPLOAD_FOLDER ++ 47 :: s) with ((UPLOAD_FOLDER ++ [47]) ++ s)
      by (now rewrite <- List.app_assoc).
    rewrite skipn_app, skipn_all, Nat.sub_diag. reflexivity. }
  rewrite B, join_upload_folder, S1. split; reflexivity.
Qed.

End FolderFacts.

Lemma project_id_locates_folder_witness :
  project_id (submission_folder (str "Solar Kiosk") (str "20260105_101500"))
  = str "Solar_Kiosk_20260105_101500" /\
  edit_folder (project_id (submission_folder (str "Solar Kiosk")
                                             (str "20260105_101500")))
  = submission_folder (str "Solar Kiosk") (str "20260105_101500").
Proof.
  apply (project_id_locates_folder (str "Solar Kiosk") (str "20260105_101500"));
    reflexivity.
Defined.

Section SdgFilterFacts.

Import PyText.

Lemma str_eqb_sym (a b : pystr) : str_eqb a b = str_eqb b a.
Proof.
  destruct (str_eqb b a) eqn:E.
  - apply str_eqb_eq in E. subst. apply str_eqb_refl.
  - apply str_eqb_neq. apply str_eqb_neq in E. congruence.
Qed.

Lemma any_not_in_list (selected stored : list pystr) :
  any_not_in selected (PList (map PStr stored))
  = Ok (negb (forallb (fun s => mem s stored) selected)).
Proof.
  induction selected as [|s selected IH]; [reflexivity|].
  cbn [any_not_in not_in bind forallb].
  assert (E : existsb (fun x => match x with
                                | PStr t => str_eqb t s
                                | _ => false
                                end) (map PStr stored) = mem s stored).
  { clear IH. unfold mem. induction stored as [|t stored IHs]; [reflexivity|].
    cbn [map existsb]. rewrite IHs, (str_eqb_sym t s). reflexivity. }
  rewrite E. destruct (mem s stored); cbn [negb andb]; [exact IH | reflexivity].
Qed.

Lemma sdg_list_of_joined (labels : list pystr) :
  labels <> [] ->
  (forall x, In x labels -> In x SDG_OPTIONS) ->
  sdg_list_of (PStr (join (str "; ") labels)) = PList (map PStr labels).
Proof.
  intros N Hin. destruct labels as [|x l]; [congruence|].
  unfold sdg_list_of. change (ord ";") with 59%N.
  rewrite split_join_semicolon
    by (apply Forall_forall; intros y Hy; now apply label_facts, Hin).
  f_equal. cbn [map].
  rewrite (proj1 (proj2 (label_facts x (Hin x (or_introl eq_refl))))).
  f_equal. rewrite map_map.
  apply map_ext_in. intros y Hy. rewrite strip_blank.
  now rewrite (proj1 (proj2 (label_facts y (Hin y (or_intror Hy))))).
Qed.

(** X18. The SDG filter of the dashboard treats the two stored shapes
    alike: for labels of [SDG_OPTIONS] stored as a list, or as one text
    joined with ["; "], a submission is skipped exactly when some
    selected SDG is not among its labels. *)
Theorem sdg_filter_on_stored_labels (selected labels : list pystr) :
  labels <> [] ->
  (forall x, In x labels -> In x SDG_OPTIONS) ->
  any_not_in selected (sdg_list_of (PStr (join (str "; ") labels)))
  = Ok (negb (forallb (fun s => mem s labels) selected)) /\
  any_not_in selected (sdg_list_of (PList (map PStr labels)))
  = Ok (negb (forallb (fun s => mem s labels) selected)).
Proof.
  intros N Hin. rewrite (sdg_list_of_joined labels N Hin).
  cbn [sdg_list_of]. split; apply any_not_in_list.
Qed.

End SdgFilterFacts.

Lemma sdg_filter_on_stored_labels_witness :
  any_not_in [str "No poverty (SDG 1)"]
             (sdg_list_of (PStr (str "Climate action (SDG 13); No poverty (SDG 1)")))
  = Ok false.
Proof.
  refine (proj1 (sdg_filter_on_stored_labels
                   [str "No poverty (SDG 1)"]
                   [str "Climate action (SDG 13)"; str "No poverty (SDG 1)"]
                   _ _)).
  - discriminate.
  - intros x [<- | [<- | []]]; apply mem_In; reflexivity.
Defined.
